(** * GitHub GraphQL client: key rotation, retrying executor, paginator

    A shallow embedding of [src/Crawl_data/graphql_client.py]
    ([GitHubGraphQLClient] and [GitHubRESTClient]), of [rate_limit_wait]
    of [utils.py] and of the helpers [get_contributors_count], [safe_get]
    and [safe_get_nested] of the crawlers, with the properties of the
    specification stated and proved over it.

    Conventions of the embedding.
    - Python values that travel through the client are parsed JSON
      documents: [json].  Numbers are the integers the API sends
      (quota counts, status codes); floats are not modelled.  A [dict] that
      comes out of [response.json()] is the list of its items, read by its
      first item for a key (a parsed [dict] has one item per key); a
      string is given by its UTF-8 bytes, [lower] maps the ASCII letters
      (the needles the client looks for are ASCII) and [len] counts
      characters, not bytes.
    - Python exceptions are explicit: a computation that may raise returns
      a [result].  Code inside a [try] block lives in the monad [M], the
      handlers are ordinary pattern matches on the raised exception.
      [time.sleep] raises when its argument is out of range, and an
      exception raised inside a handler leaves the function.  Retry counts
      start at 0 and only grow, so that [2 ** retry_count] is an integer.
    - The network and the random generator are an oracle, [world]: the
      k-th call of [session.post] receives [net W k], the k-th call of
      [random.randint] is derived from [rand W k].
    - Everything the client does to the outside is appended to a trace of
      [event]s (requests sent, seconds slept).  Log lines are omitted.
    - Dictionaries handed over by reference live in a heap of objects, so
      that writes of the callee are seen by the caller. *)

From Stdlib Require Import ZArith QArith String Ascii List Lia DecimalString.
From stdpp Require Import gmap strings.
Import ListNotations.
Open Scope Z_scope.

(** ** Python values *)

#[warnings="-register-all"]
Inductive json : Type :=
| JNull
| JBool (b : bool)
| JInt (n : Z)
| JStr (s : string)
| JArr (items : list json)
| JObj (fields : list (string * json)).

(** Exceptions the client can meet.  [Timeout] and [ConnectionError] are
    the two classes of [requests.exceptions] the executor names; the
    others are the builtin ones raised by operations on values. *)
Inductive exn : Type :=
| Timeout
| ConnectionError
| RequestException
| ValueError
| TypeError
| KeyError
| IndexError
| AttributeError
| OverflowError.

Inductive result (A : Type) : Type :=
| Ok (a : A)
| Raise (e : exn).
Arguments Ok {A} a.
Arguments Raise {A} e.

Module Py.

(** *** Strings *)

Definition ascii_lower (c : ascii) : ascii :=
  let n := nat_of_ascii c in
  if ((65 <=? n)%nat && (n <=? 90)%nat)%bool then ascii_of_nat (n + 32) else c.

(** [s.lower()] *)
Fixpoint lower (s : string) : string :=
  match s with
  | EmptyString => EmptyString
  | String c r => String (ascii_lower c) (lower r)
  end.

(** [needle in hay] on two strings *)
Fixpoint contains (needle hay : string) : bool :=
  (String.prefix needle hay ||
   match hay with
   | EmptyString => false
   | String _ r => contains needle r
   end)%bool.

Fixpoint join (sep : string) (l : list string) : string :=
  match l with
  | [] => EmptyString
  | [x] => x
  | x :: r => (x ++ sep ++ join sep r)%string
  end.

Fixpoint has_char (c : ascii) (s : string) : bool :=
  match s with
  | EmptyString => false
  | String d r => (Ascii.eqb c d || has_char c r)%bool
  end.

Definition hex_digit (n : nat) : ascii :=
  if (n <? 10)%nat then ascii_of_nat (48 + n) else ascii_of_nat (87 + n).

(** One character of [repr(s)], [q] being the quote that delimits it. *)
Definition repr_char (q c : ascii) : string :=
  let n := nat_of_ascii c in
  if Ascii.eqb c "\"%char then "\\"%string
  else if Ascii.eqb c q then String "\"%char (String c EmptyString)
  else if (n =? 10)%nat then "\n"%string
  else if (n =? 13)%nat then "\r"%string
  else if (n =? 9)%nat then "\t"%string
  else if ((n <? 32)%nat || (n =? 127)%nat)%bool then
    String "\"%char (String "x"%char
      (String (hex_digit (n / 16)) (String (hex_digit (n mod 16)) EmptyString)))
  else String c EmptyString.

Fixpoint repr_chars (q : ascii) (s : string) : string :=
  match s with
  | EmptyString => EmptyString
  | String c r => (repr_char q c ++ repr_chars q r)%string
  end.

(** [repr(s)] for a string: single quotes, unless the string has a single
    quote and no double quote. *)
Definition repr_str (s : string) : string :=
  let q := if (has_char "'"%char s && negb (has_char "034"%char s))%bool
           then "034"%char else "'"%char in
  String q (repr_chars q s ++ String q EmptyString)%string.

Definition repr_int (n : Z) : string := NilZero.string_of_int (Z.to_int n).

(** [repr(v)] *)
Fixpoint repr (v : json) : string :=
  match v with
  | JNull => "None"
  | JBool true => "True"
  | JBool false => "False"
  | JInt n => repr_int n
  | JStr s => repr_str s
  | JArr items => ("[" ++ join ", " (map repr items) ++ "]")%string
  | JObj fields =>
      ("{" ++ join ", "
         (map (fun '(k, x) => (repr_str k ++ ": " ++ repr x)%string) fields)
       ++ "}")%string
  end.

(** [str(v)] *)
Definition str (v : json) : string :=
  match v with
  | JStr s => s
  | _ => repr v
  end.

(** *** Truth value, membership, subscripts *)

(** [bool(v)] *)
Definition truthy (v : json) : bool :=
  match v with
  | JNull => false
  | JBool b => b
  | JInt n => negb (n =? 0)
  | JStr s => negb (String.eqb s EmptyString)
  | JArr items => match items with [] => false | _ => true end
  | JObj fields => match fields with [] => false | _ => true end
  end.

(** Value stored under [key] in a dictionary given by its items. *)
Fixpoint lookup_field (key : string) (fields : list (string * json)) : option json :=
  match fields with
  | [] => None
  | (k, x) :: r => if String.eqb key k then Some x else lookup_field key r
  end.

Definition is_str (key : string) (v : json) : bool :=
  match v with
  | JStr s => String.eqb key s
  | _ => false
  end.

(** [key in v] for a string [key]: key of a dict, element of a list,
    substring of a string; [TypeError] on anything else. *)
Definition contains_key (key : string) (v : json) : result bool :=
  match v with
  | JObj fields => Ok (match lookup_field key fields with Some _ => true | None => false end)
  | JArr items => Ok (existsb (is_str key) items)
  | JStr s => Ok (contains key s)
  | _ => Raise TypeError
  end.

(** [v[key]] for a string [key] *)
Definition getitem (v : json) (key : string) : result json :=
  match v with
  | JObj fields =>
      match lookup_field key fields with
      | Some x => Ok x
      | None => Raise KeyError
      end
  | _ => Raise TypeError
  end.

(** [v.get(key, default)]: only dictionaries have the method. *)
Definition get (v : json) (key : string) (default : json) : result json :=
  match v with
  | JObj fields =>
      Ok (match lookup_field key fields with Some x => x | None => default end)
  | _ => Raise AttributeError
  end.

Fixpoint chars (s : string) : list json :=
  match s with
  | EmptyString => []
  | String c r => JStr (String c EmptyString) :: chars r
  end.

(** The elements [for x in v] runs over. *)
Definition iter (v : json) : result (list json) :=
  match v with
  | JArr items => Ok items
  | JObj fields => Ok (map (fun kv => JStr (fst kv)) fields)
  | JStr s => Ok (chars s)
  | _ => Raise TypeError
  end.

(** [any(f(x) for x in l)]: stops at the first true, and at the first
    exception. *)
Fixpoint any (f : json -> result bool) (l : list json) : result bool :=
  match l with
  | [] => Ok false
  | x :: r =>
      match f x with
      | Raise e => Raise e
      | Ok true => Ok true
      | Ok false => any f r
      end
  end.

(** [v < n] for an integer [n]; booleans are integers. *)
Definition lt_int (v : json) (n : Z) : result bool :=
  match v with
  | JInt m => Ok (m <? n)
  | JBool b => Ok ((if b then 1 else 0) <? n)
  | _ => Raise TypeError
  end.

(** [random.randint(a, b)] from a raw draw [r] *)
Definition randint (a b r : Z) : Z := a + r mod (b - a + 1).

End Py.

(** ** The outside world, the client object and its effects *)

Abbreviation dict := (gmap string json).

Inductive http_outcome : Type :=
| Response (status_code : Z) (body : option json)
    (* [body = None]: the body is not JSON, [response.json()] raises *)
| Raises (e : exn).

Record world : Type := {
  net : nat -> http_outcome;   (* outcome of the k-th [session.post] *)
  rand : nat -> Z              (* raw value behind the k-th [randint] *)
}.

Inductive call_site : Type := RateLimitCall | QueryCall.

Record request : Type := {
  req_site : call_site;
  req_token : string;               (* the key of the Authorization header *)
  req_query : string;
  req_variables : option dict;      (* payload['variables'], when present *)
  req_timeout : Z
}.

Inductive event : Type :=
| Post (r : request)
| Sleep (seconds : Q).

Record state : Type := {
  api_keys : list string;
  current_key_index : nat;
  posts : nat;                 (* requests sent so far *)
  draws : nat;                 (* random numbers drawn so far *)
  trace : list event;
  heap : gmap nat dict         (* dictionaries passed by reference *)
}.

Definition set_index (i : nat) (s : state) : state :=
  {| api_keys := api_keys s; current_key_index := i; posts := posts s;
     draws := draws s; trace := trace s; heap := heap s |}.

Definition log_event (ev : event) (s : state) : state :=
  {| api_keys := api_keys s; current_key_index := current_key_index s;
     posts := posts s; draws := draws s; trace := trace s ++ [ev];
     heap := heap s |}.

Definition count_post (s : state) : state :=
  {| api_keys := api_keys s; current_key_index := current_key_index s;
     posts := S (posts s); draws := draws s; trace := trace s;
     heap := heap s |}.

Definition count_draw (s : state) : state :=
  {| api_keys := api_keys s; current_key_index := current_key_index s;
     posts := posts s; draws := S (draws s); trace := trace s;
     heap := heap s |}.

Definition set_heap (h : gmap nat dict) (s : state) : state :=
  {| api_keys := api_keys s; current_key_index := current_key_index s;
     posts := posts s; draws := draws s; trace := trace s; heap := h |}.

(** The dictionary a reference points to. *)
Definition deref (l : nat) (s : state) : dict := default ∅ (heap s !! l).

(** *** Code that may raise and has effects *)

Definition M (A : Type) : Type := state -> result A * state.

Definition ret {A} (a : A) : M A := fun s => (Ok a, s).

Definition bind {A B} (m : M A) (f : A -> M B) : M B :=
  fun s =>
    match m s with
    | (Ok a, s') => f a s'
    | (Raise e, s') => (Raise e, s')
    end.

Definition lift {A} (r : result A) : M A := fun s => (r, s).

Declare Scope py_scope.
Delimit Scope py_scope with py.
Notation "x <- m ;; k" := (bind m (fun x => k))
  (at level 100, m at next level, right associativity) : py_scope.
Notation "m ;; k" := (bind m (fun _ => k))
  (at level 100, right associativity) : py_scope.
Open Scope py_scope.

Definition emit (ev : event) : M unit := fun s => (Ok tt, log_event ev s).

(** The longest wait [time.sleep] accepts, in seconds: the wait in
    nanoseconds has to fit a signed integer of 64 bits. *)
Definition SLEEP_MAX : Z := (2 ^ 63 - 1) / 10 ^ 9.
Arguments SLEEP_MAX : simpl never.

(** [time.sleep(seconds)] for an integer number of seconds: it raises
    [ValueError] for a negative wait and [OverflowError] for one that is
    too long, and does not sleep then. *)
Definition sleep (seconds : Z) : M unit :=
  if seconds <? 0 then lift (Raise ValueError)
  else if SLEEP_MAX <? seconds then lift (Raise OverflowError)
  else emit (Sleep (inject_Z seconds)).

Fixpoint sleep_each_second (n : nat) : M unit :=
  match n with
  | O => ret tt
  | S k => sleep 1 ;; sleep_each_second k
  end.

(** [utils.rate_limit_wait(seconds)]: one [time.sleep(1)] per second. *)
Definition rate_limit_wait (seconds : Z) : M unit :=
  sleep_each_second (Z.to_nat seconds).

(** ** config.py *)

Definition RATE_LIMIT_THRESHOLD : Z := 100.

(** ** GitHubGraphQLClient *)

(** Text of the quota query (layout white space dropped). *)
Definition rate_limit_query : string :=
  "query { rateLimit { limit cost remaining resetAt } }".

Definition backoff_base : Z := 2.

(** How one pass through the body of the retry loop ends. *)
Inductive iter_result : Type :=
| Return (v : json)               (* [return v] *)
| Continue (retry_count : Z)      (* next pass, with this [retry_count] *)
| Escape (e : exn).               (* [e] is raised in a handler and leaves
                                     [execute_query] *)

(** The three capped waits of [execute_query], as the code computes
    them from [retry_count] (and the jitter drawn for server errors). *)
Definition quota_wait (retry_count : Z) : Z :=
  Z.min 300 (backoff_base ^ retry_count).

Definition server_wait (retry_count jitter : Z) : Z :=
  Z.min 60 (backoff_base ^ retry_count + jitter).

Definition network_wait (retry_count : Z) : Z :=
  Z.min 30 (backoff_base ^ retry_count).

(** Lines 199-202, the handler of [except Exception], entered with
    [retry_count]: [retry_count += 1; time.sleep(backoff_base **
    retry_count)].  An exception of this sleep is raised inside a handler:
    no other handler takes it. *)
Definition on_exception (retry_count : Z) (s : state) : iter_result * state :=
  match sleep (backoff_base ^ (retry_count + 1)) s with
  | (Ok _, s') => (Continue (retry_count + 1), s')
  | (Raise e, s') => (Escape e, s')
  end.

(** [retry_count += 1; time.sleep(backoff_base ** retry_count)] inside the
    [try] block (lines 148-149 and 184-185), at the end of a pass.  An
    exception of this sleep is no [Timeout] and no [ConnectionError]: it
    goes to the handler of line 199, which finds [retry_count] already
    incremented. *)
Definition sleep_incremented (retry_count : Z) : M iter_result :=
  fun s =>
    match sleep (backoff_base ^ (retry_count + 1)) s with
    | (Ok _, s') => (Ok (Continue (retry_count + 1)), s')
    | (Raise _, s') =>
        let (r, s'') := on_exception (retry_count + 1) s' in (Ok r, s'')
    end.

(** [self.current_key]: [self.api_keys[self.current_key_index]] *)
Definition current_key : M string :=
  fun s =>
    match nth_error (api_keys s) (current_key_index s) with
    | Some k => (Ok k, s)
    | None => (Raise IndexError, s)
    end.

(** [rotate_key] *)
Definition rotate_key : M bool :=
  fun s =>
    if (length (api_keys s) <=? 1)%nat then (Ok false, s)
    else
      let s1 :=
        set_index ((current_key_index s + 1) mod length (api_keys s))%nat s in
      (Ok true, log_event (Sleep (inject_Z 1)) s1).

(** [response.json()] *)
Definition response_json (body : option json) : result json :=
  match body with
  | Some j => Ok j
  | None => Raise ValueError
  end.

(** [variables] as [execute_query] puts it in the payload: only when it is
    given and not empty. *)
Definition payload_variables (variables : option nat) (s : state) : option dict :=
  match variables with
  | None => None
  | Some l => if (size (deref l s) =? 0)%nat then None else Some (deref l s)
  end.

Section Client.

Variable W : world.

(** [self.session.post(GITHUB_GRAPHQL_URL, json=..., headers=self.headers,
    timeout=...)]: the headers are computed first, then the request goes
    out and the world answers. *)
Definition post (site : call_site) (query : string) (variables : option nat)
    (timeout : Z) : M (Z * option json) :=
  key <- current_key ;;
  fun s =>
    let r := {| req_site := site; req_token := key; req_query := query;
                req_variables := payload_variables variables s;
                req_timeout := timeout |} in
    let s' := count_post (log_event (Post r) s) in
    match net W (posts s) with
    | Response status_code body => (Ok (status_code, body), s')
    | Raises e => (Raise e, s')
    end.

(** [random.randint(a, b)] *)
Definition randint (a b : Z) : M Z :=
  fun s => (Ok (Py.randint a b (rand W (draws s))), count_draw s).

(** The [try] block of [check_rate_limit]; [None] when it falls through
    without returning. *)
Definition check_rate_limit_try : M (option json) :=
  response <- post RateLimitCall rate_limit_query None 10 ;;
  if fst response =? 200 then
    data <- lift (response_json (snd response)) ;;
    has_data <- lift (Py.contains_key "data" data) ;;
    if has_data : bool then
      d <- lift (Py.getitem data "data") ;;
      has_rate_limit <- lift (Py.contains_key "rateLimit" d) ;;
      if has_rate_limit : bool then
        rate_limit <- lift (Py.getitem d "rateLimit") ;;
        (* the log line reads both fields *)
        lift (Py.getitem rate_limit "remaining") ;;
        lift (Py.getitem rate_limit "limit") ;;
        ret (Some rate_limit)
      else ret None
    else ret None
  else ret None.

(** [check_rate_limit]: any exception, and any answer without the quota
    object, gives [{'remaining': 0}]. *)
Definition check_rate_limit : M json :=
  fun s =>
    match check_rate_limit_try s with
    | (Ok (Some rate_limit), s') => (Ok rate_limit, s')
    | (_, s') => (Ok (JObj [("remaining"%string, JInt 0)]), s')
    end.

Section ExecuteQuery.

Variable query : string.
Variable variables : option nat.
Variable max_retries : Z.

(** Lines 96-106: the quota check of the first pass.  [Some r] when the
    pass ends here with [r], [None] when it goes on to the request. *)
Definition rate_limit_gate (retry_count : Z) : M (option iter_result) :=
  if retry_count =? 0 then
    rate_limit <- check_rate_limit ;;
    remaining <- lift (Py.get rate_limit "remaining" (JInt 0)) ;;
    low <- lift (Py.lt_int remaining RATE_LIMIT_THRESHOLD) ;;
    if low : bool then
      rotated <- rotate_key ;;
      if negb rotated then
        let wait_time := quota_wait retry_count in
        rate_limit_wait wait_time ;;
        ret (Some (Continue (retry_count + 1)))
      else ret None
    else ret None
  else ret None.

(** [any('FORBIDDEN' in str(err.get('type', '')) for err in data['errors'])] *)
Definition has_forbidden (errors : json) : result bool :=
  match Py.iter errors with
  | Raise e => Raise e
  | Ok errs =>
      Py.any (fun err =>
                match Py.get err "type" (JStr "") with
                | Raise e => Raise e
                | Ok t => Ok (Py.contains "FORBIDDEN" (Py.str t))
                end) errs
  end.

(** [any('permission' in str(err.get('message', '')).lower() for err in
    data['errors'])] *)
Definition has_permission_error (errors : json) : result bool :=
  match Py.iter errors with
  | Raise e => Raise e
  | Ok errs =>
      Py.any (fun err =>
                match Py.get err "message" (JStr "") with
                | Raise e => Raise e
                | Ok m => Ok (Py.contains "permission" (Py.lower (Py.str m)))
                end) errs
  end.

(** Lines 123-152: a response with status 200. *)
Definition handle_200 (retry_count : Z) (body : option json) : M iter_result :=
  data <- lift (response_json body) ;;
  has_errors <- lift (Py.contains_key "errors" data) ;;
  if has_errors : bool then
    errors <- lift (Py.getitem data "errors") ;;
    let error_msg := Py.str errors in
    forbidden <- lift (has_forbidden errors) ;;
    permission <- lift (has_permission_error errors) ;;
    if (forbidden || permission)%bool then
      has_data <- lift (Py.contains_key "data" data) ;;
      if has_data : bool then ret (Return data) else ret (Return JNull)
    else if Py.contains "rate limit" (Py.lower error_msg) then
      rotate_key ;;
      ret (Continue (retry_count + 1))
    else if Py.contains "timeout" (Py.lower error_msg) then
      sleep_incremented retry_count
    else ret (Return data)
  else ret (Return data).

(** Lines 122-185: dispatch on the status code. *)
Definition handle_response (retry_count : Z) (response : Z * option json)
    : M iter_result :=
  let status_code := fst response in
  if status_code =? 200 then handle_200 retry_count (snd response)
  else if status_code =? 401 then
    rotated <- rotate_key ;;
    if rotated : bool then ret (Continue (retry_count + 1)) else ret (Return JNull)
  else if status_code =? 403 then
    rotated <- rotate_key ;;
    if rotated : bool then ret (Continue (retry_count + 1))
    else
      let wait_time := quota_wait retry_count in
      rate_limit_wait wait_time ;;
      ret (Continue (retry_count + 1))
  else if status_code >=? 500 then
    jitter <- randint 0 10 ;;
    let wait_time := server_wait retry_count jitter in
    sleep wait_time ;;
    ret (Continue (retry_count + 1))
  else sleep_incremented retry_count.

(** Lines 108-119 and what follows: build the payload, send, classify. *)
Definition send_request (retry_count : Z) : M iter_result :=
  response <- post QueryCall query variables 30 ;;
  handle_response retry_count response.

(** The [try] block of one pass. *)
Definition try_body (retry_count : Z) : M iter_result :=
  gate <- rate_limit_gate retry_count ;;
  match gate with
  | Some r => ret r
  | None => send_request retry_count
  end.

(** One pass of the [while] loop: the [try] block and its three handlers.
    The waits of the first two are at most 30 seconds, which [time.sleep]
    accepts; the wait of the third has no cap. *)
Definition execute_attempt (retry_count : Z) (s : state) : iter_result * state :=
  match try_body retry_count s with
  | (Ok r, s') => (r, s')
  | (Raise Timeout, s') =>
      let wait_time := network_wait retry_count in
      (Continue (retry_count + 1), log_event (Sleep (inject_Z wait_time)) s')
  | (Raise ConnectionError, s') =>
      let wait_time := network_wait retry_count in
      (Continue (retry_count + 1), log_event (Sleep (inject_Z wait_time)) s')
  | (Raise _, s') => on_exception retry_count s'
  end.

(** [while retry_count < max_retries: ...] followed by [return None].
    [fuel] bounds the number of passes; [None] is a loop cut short by it
    (never the case from [execute_query], see [execute_query_returns]),
    [Some (Raise e)] a call that ends with the exception [e]. *)
Fixpoint execute_loop (fuel : nat) (retry_count : Z) (s : state)
    : option (result json) * state :=
  if retry_count <? max_retries then
    match fuel with
    | O => (None, s)
    | S fuel' =>
        match execute_attempt retry_count s with
        | (Return v, s') => (Some (Ok v), s')
        | (Continue retry_count', s') => execute_loop fuel' retry_count' s'
        | (Escape e, s') => (Some (Raise e), s')
        end
    end
  else (Some (Ok JNull), s).

Definition execute_query (s : state) : option (result json) * state :=
  execute_loop (Z.to_nat max_retries) 0 s.

End ExecuteQuery.

(** *** paginate_query *)

(** The local variables of [paginate_query]. *)
Record pager : Type := {
  all_results : list json;
  has_next : json;
  cursor : json;
  page_count : Z;
  consecutive_failures : Z
}.

Definition initial_pager : pager :=
  {| all_results := []; has_next := JBool true; cursor := JNull;
     page_count := 0; consecutive_failures := 0 |}.

Definition max_consecutive_failures : Z := 3.

(** [variables['after'] = cursor], on the dictionary object itself. *)
Definition write_after (variables : nat) (c : json) (s : state) : state :=
  set_heap (<[variables := <["after"%string := c]> (deref variables s)]> (heap s)) s.

(** [not result or 'data' not in result] *)
Definition unusable (r : json) : result bool :=
  if negb (Py.truthy r) then Ok true
  else
    match Py.contains_key "data" r with
    | Ok b => Ok (negb b)
    | Raise e => Raise e
    end.

(** Lines 242-247: walk down [page_info_path].  [None] when a key is
    missing ([has_next = False; break]). *)
Fixpoint navigate (page_info_path : list string) (page_info_data : json)
    : result (option json) :=
  match page_info_path with
  | [] => Ok (Some page_info_data)
  | key :: rest =>
      match Py.contains_key key page_info_data with
      | Raise e => Raise e
      | Ok false => Ok None
      | Ok true =>
          match Py.getitem page_info_data key with
          | Raise e => Raise e
          | Ok inner => navigate rest inner
          end
      end
  end.

(** Lines 249-253: the new [has_next] and [cursor], given where the walk
    ended ([has_next] is true when the walk was not cut short). *)
Definition read_page_info (old_cursor : json) (walk : option json)
    : result (json * json) :=
  match walk with
  | None => Ok (JBool false, old_cursor)
  | Some page_info_data =>
      match Py.contains_key "pageInfo" page_info_data with
      | Raise e => Raise e
      | Ok false => Ok (JBool false, old_cursor)
      | Ok true =>
          match Py.getitem page_info_data "pageInfo" with
          | Raise e => Raise e
          | Ok page_info =>
              match Py.get page_info "hasNextPage" (JBool false),
                    Py.get page_info "endCursor" JNull with
              | Ok h, Ok c => Ok (h, c)
              | Raise e, _ => Raise e
              | _, Raise e => Raise e
              end
          end
      end
  end.

(** Lines 237-255: a usable page was fetched. *)
Definition accept_page (page_info_path : list string) (p : pager) (r : json)
    : result pager :=
  let all_results' := all_results p ++ [r] in
  match Py.getitem r "data" with
  | Raise e => Raise e
  | Ok page_info_data =>
      match navigate page_info_path page_info_data with
      | Raise e => Raise e
      | Ok walk =>
          match read_page_info (cursor p) walk with
          | Raise e => Raise e
          | Ok (h, c) =>
              Ok {| all_results := all_results'; has_next := h; cursor := c;
                    page_count := page_count p + 1;
                    consecutive_failures := 0 |}
          end
      end
  end.

(** [consecutive_failures += 1] *)
Definition count_failure (p : pager) : pager :=
  {| all_results := all_results p; has_next := has_next p;
     cursor := cursor p; page_count := page_count p;
     consecutive_failures := consecutive_failures p + 1 |}.

(** How one pass of the pagination loop ends, when it ends normally. *)
Inductive pass_result : Type :=
| Break
| Next (p : pager).

Section PaginateQuery.

Variable query_template : string.
Variable variables : nat.            (* reference to the caller's dict *)
Variable page_info_path : list string.
Variable max_pages : option Z.

(** The state in which a pass sends its query: lines 219-220. *)
Definition update_cursor (p : pager) (s : state) : state :=
  if Py.truthy (cursor p) then write_after variables (cursor p) s else s.

(** Lines 225-234: the fetch gave nothing usable.  The wait is of 2 or 4
    seconds. *)
Definition reject_page (p : pager) (s : state) : pass_result * state :=
  let p' := count_failure p in
  if consecutive_failures p' >=? max_consecutive_failures then (Break, s)
  else
    let wait_time := 2 ^ consecutive_failures p' in
    (Next p', log_event (Sleep (inject_Z wait_time)) s).

(** One pass of the loop.  The outer [None] is a fetch cut short by fuel
    (which does not happen), [Raise] an exception that leaves
    [paginate_query]: nothing in it catches one. *)
Definition paginate_pass (p : pager) (s : state)
    : option (result pass_result) * state :=
  match execute_query query_template (Some variables) 5 (update_cursor p s) with
  | (None, s') => (None, s')
  | (Some (Raise e), s') => (Some (Raise e), s')
  | (Some (Ok r), s') =>
      match unusable r with
      | Raise e => (Some (Raise e), s')
      | Ok true =>
          let (out, s'') := reject_page p s' in (Some (Ok out), s'')
      | Ok false =>
          match accept_page page_info_path p r with
          | Raise e => (Some (Raise e), s')
          | Ok p' => (Some (Ok (Next p')), log_event (Sleep (1 # 2)) s')
          end
      end
  end.

(** [has_next and (max_pages is None or page_count < max_pages)] *)
Definition loop_condition (p : pager) : bool :=
  (Py.truthy (has_next p) &&
   match max_pages with
   | None => true
   | Some m => page_count p <? m
   end)%bool.

(** The [while] loop and [return all_results].  The loop need not end
    when [max_pages] is [None]; [fuel] bounds the passes and [None] is a
    run cut short by it. *)
Fixpoint paginate_loop (fuel : nat) (p : pager) (s : state)
    : option (result (list json)) * state :=
  if loop_condition p then
    match fuel with
    | O => (None, s)
    | S fuel' =>
        match paginate_pass p s with
        | (None, s') => (None, s')
        | (Some (Raise e), s') => (Some (Raise e), s')
        | (Some (Ok Break), s') => (Some (Ok (all_results p)), s')
        | (Some (Ok (Next p')), s') => paginate_loop fuel' p' s'
        end
    end
  else (Some (Ok (all_results p)), s).

Definition paginate_query (fuel : nat) (s : state)
    : option (result (list json)) * state :=
  paginate_loop fuel initial_pager s.

End PaginateQuery.
End Client.

(** ** GitHubRESTClient *)

Module Rest.

(** [GitHubRESTClient.rotate_key]: as above, without the pause. *)
Definition rotate_key : M bool :=
  fun s =>
    if (length (api_keys s) <=? 1)%nat then (Ok false, s)
    else
      (Ok true,
       set_index ((current_key_index s + 1) mod length (api_keys s))%nat s).

End Rest.

(** ** GitHubRESTClient.get *)

(** What [session.get] can give: a response, with its status code, its
    body as JSON when it parses, and its text; or an exception. *)
Inductive rest_outcome : Type :=
| RestResponse (status_code : Z) (body : option json) (text : string)
| RestRaises (e : exn).

(** How one pass through the body of the [for] loop of [get] ends. *)
Inductive get_step : Type :=
| Done (v : json)        (* [return v] *)
| Again.                 (* next value of [retry] *)

Module RestApi.
Section Get.

(** The answer to the k-th request of the client.  The URL and the
    parameters of a request play no part in what [get] does with the
    answer, and are left out. *)
Variable R : nat -> rest_outcome.

(** [self.session.get(url, headers=self.headers, params=params,
    timeout=30)]: the headers need the current key. *)
Definition session_get : M (Z * option json * string) :=
  current_key ;;
  fun s =>
    match R (posts s) with
    | RestResponse status_code body text =>
        (Ok (status_code, body, text), count_post s)
    | RestRaises e => (Raise e, count_post s)
    end.

(** Lines 304-332: the [try] block of one pass. *)
Definition get_try (retry : Z) : M get_step :=
  response <- session_get ;;
  let status_code := fst (fst response) in
  if status_code =? 200 then
    data <- lift (response_json (snd (fst response))) ;;
    ret (Done data)
  else if status_code =? 401 then
    Rest.rotate_key ;;
    ret Again
  else if status_code =? 403 then
    if Py.contains "rate limit" (Py.lower (snd response)) then
      Rest.rotate_key ;;
      ret Again
    else ret (Done JNull)
  else if status_code =? 404 then ret (Done JNull)
  else if status_code >=? 500 then
    let wait_time := 2 ^ retry in
    sleep wait_time ;;
    ret Again
  else ret Again.

(** One pass: the [try] block and its two handlers, which both sleep
    [2 ** retry] seconds.  An exception of a handler's sleep leaves
    [get]. *)
Definition get_pass (retry : Z) : M get_step :=
  fun s =>
    match get_try retry s with
    | (Ok r, s') => (Ok r, s')
    | (Raise Timeout, s') => (sleep (2 ^ retry) ;; ret Again) s'
    | (Raise _, s') => (sleep (2 ^ retry) ;; ret Again) s'
    end.

(** [for retry in range(max_retries): ...] followed by [return None];
    [n] passes are left and the next one has number [retry]. *)
Fixpoint get_loop (n : nat) (retry : Z) : M json :=
  match n with
  | O => ret JNull
  | S n' =>
      fun s =>
        match get_pass retry s with
        | (Ok (Done v), s') => (Ok v, s')
        | (Ok Again, s') => get_loop n' (retry + 1) s'
        | (Raise e, s') => (Raise e, s')
        end
  end.

Definition get (max_retries : Z) : M json :=
  get_loop (Z.to_nat max_retries) 0.

End Get.
End RestApi.

(** ** crawl_repos.py, crawl_users.py *)

Definition MIN_CONTRIBUTORS : Z := 5.

(** Number of characters of a string given by its UTF-8 bytes: the
    bytes [10xxxxxx] continue a character, every other byte starts one. *)
Fixpoint utf8_length (s : string) : nat :=
  match s with
  | EmptyString => 0
  | String c r =>
      let n := nat_of_ascii c in
      ((if ((128 <=? n) && (n <? 192))%bool%nat then 0 else 1) + utf8_length r)%nat
  end.

(** Number of keys of a dictionary given by its items: an item whose key
    comes again later in the list is not counted. *)
Fixpoint count_keys (fields : list (string * json)) : nat :=
  match fields with
  | [] => 0
  | (k, _) :: r =>
      ((match Py.lookup_field k r with Some _ => 0 | None => 1 end)
       + count_keys r)%nat
  end.

(** [len(v)] *)
Definition py_len (v : json) : result Z :=
  match v with
  | JArr items => Ok (Z.of_nat (length items))
  | JObj fields => Ok (Z.of_nat (count_keys fields))
  | JStr s => Ok (Z.of_nat (utf8_length s))
  | _ => Raise TypeError
  end.

(** [RepositoryCrawler.get_contributors_count]: the call of the REST
    client (with its default of 3 retries), the test on its result, and
    the handler that turns any exception into 0. *)
Definition get_contributors_count (R : nat -> rest_outcome) (s : state)
    : Z * state :=
  match RestApi.get R 3 s with
  | (Ok result, s') =>
      if Py.truthy result then
        match py_len result with
        | Ok n => if n >? MIN_CONTRIBUTORS then (n, s') else (0, s')
        | Raise _ => (0, s')
        end
      else (0, s')
  | (Raise _, s') => (0, s')
  end.

(** [safe_get(data, key, default)] *)
Definition safe_get (data : json) (key : string) (default : json) : result json :=
  match data with
  | JNull => Ok default
  | _ => Py.get data key default
  end.

(** The [for] loop of [safe_get_nested]; [None] where the code returns
    [default] from inside the loop. *)
Fixpoint descend (keys : list string) (current : json) : option json :=
  match keys with
  | [] => Some current
  | key :: rest =>
      match current with
      | JObj fields =>
          match Py.lookup_field key fields with
          | None | Some JNull => None
          | Some inner => descend rest inner
          end
      | _ => None
      end
  end.

(** [safe_get_nested(data, *keys, default=default)] *)
Definition safe_get_nested (data : json) (keys : list string) (default : json)
    : json :=
  match data with
  | JNull => default
  | _ =>
      match descend keys data with
      | None => default
      | Some JNull => default
      | Some current => current
      end
  end.

(** ** Sample runs *)

Definition new_client (keys : list string) (objects : gmap nat dict) : state :=
  {| api_keys := keys; current_key_index := 0; posts := 0; draws := 0;
     trace := []; heap := objects |}.

Definition quota_answer (remaining : Z) : http_outcome :=
  Response 200 (Some (JObj [("data"%string,
    JObj [("rateLimit"%string,
      JObj [("limit"%string, JInt 5000); ("cost"%string, JInt 1);
            ("remaining"%string, JInt remaining);
            ("resetAt"%string, JStr "2024-01-01T00:00:00Z")])])])).

Definition followers_page (more : bool) (end_cursor : json) : json :=
  JObj [("data"%string,
    JObj [("user"%string,
      JObj [("followers"%string,
        JObj [("nodes"%string, JArr []);
              ("pageInfo"%string,
               JObj [("hasNextPage"%string, JBool more);
                     ("endCursor"%string, end_cursor)])])])])].

Definition answers (l : list http_outcome) (fallback : http_outcome) : world :=
  {| net := fun k => nth k l fallback; rand := fun _ => 0 |}.

Definition caller_variables : dict :=
  {[ "login"%string := JStr "octocat"; "first"%string := JInt 100;
     "after"%string := JNull ]}.

(** Section 8 of the specification: page 1 has [hasNextPage = true] and
    [endCursor = "X"], page 2 has [hasNextPage = false]. *)
Definition two_pages : world :=
  answers [quota_answer 4000; Response 200 (Some (followers_page true (JStr "X")));
           quota_answer 3999; Response 200 (Some (followers_page false (JStr "Y")))]
          (Response 404 None).

Definition two_keys : state :=
  new_client ["A"; "B"]%string {[ 7%nat := caller_variables ]}.

(** A server that answers 500 to every query, with a generous quota; the
    third jitter drawn is 10, the others are 0. *)
Definition failing_server : world :=
  {| net := fun k => match k with O => quota_answer 4000 | _ => Response 500 None end;
     rand := fun k => match k with 2%nat => 10 | _ => 0 end |}.

(** A repository the key may read only in part. *)
Definition partial_answer : json :=
  JObj [("data"%string, JObj [("repository"%string, JObj [("name"%string, JStr "tf")])]);
        ("errors"%string,
         JArr [JObj [("type"%string, JStr "FORBIDDEN");
                     ("message"%string, JStr "Resource not accessible by integration")]])].

Definition denied_answer : json :=
  JObj [("errors"%string,
         JArr [JObj [("type"%string, JStr "FORBIDDEN");
                     ("message"%string, JStr "Resource not accessible by integration")];
               JObj [("message"%string, JStr "You do not have permission to view this")]])].

(** The answer of the API for a login that does not exist. *)
Definition user_not_found : json :=
  JObj [("data"%string, JObj [("user"%string, JNull)]);
        ("errors"%string,
         JArr [JObj [("type"%string, JStr "NOT_FOUND");
                     ("path"%string, JArr [JStr "user"]);
                     ("message"%string,
                      JStr "Could not resolve to a User with the login of 'nobody'.")]])].

Definition not_found_server : world :=
  {| net := fun k => match k with
                     | O => quota_answer 4000
                     | _ => Response 200 (Some user_not_found)
                     end;
     rand := fun _ => 0 |}.

(** Section 8 of the specification: two keys, threshold 100, 50 left. *)
Definition low_quota : world :=
  answers [quota_answer 50; Response 200 (Some (followers_page false JNull))]
          (Response 404 None).

(** Page 1 announces a next page with an empty cursor. *)
Definition empty_cursor_pages : world :=
  answers [quota_answer 4000; Response 200 (Some (followers_page true (JStr "")));
           quota_answer 3999; Response 200 (Some (followers_page false JNull))]
          (Response 404 None).

(** An API that answers 404 to everything. *)
Definition down : world := answers [] (Response 404 None).

(** * Vocabulary of the properties *)

(** ** Rotating a pool of keys *)

(** The index after one rotation of a pool of [n] keys. *)
Definition next_index (n i : nat) : nat :=
  if (n <=? 1)%nat then i else ((i + 1) mod n)%nat.

(** [rot] called [n] times in a row. *)
Fixpoint rotate_times (rot : M bool) (n : nat) (s : state) : state :=
  match n with
  | O => s
  | S k => rotate_times rot k (snd (rot s))
  end.

(** What the two [rotate_key] methods have in common. *)
Definition rotates (rot : M bool) : Prop :=
  forall s,
    api_keys (snd (rot s)) = api_keys s /\
    current_key_index (snd (rot s))
      = next_index (length (api_keys s)) (current_key_index s) /\
    fst (rot s) = Ok (negb (length (api_keys s) <=? 1)%nat).

(** ** Failure classes and their waits *)

(** The failure classes that have a capped wait. *)
Inductive failure_class : Type :=
| NetworkFailure      (* timeout, connection error: lines 187-197 *)
| ServerFailure       (* status >= 500: lines 175-180 *)
| QuotaExhausted.     (* low quota or 403 with no key left: lines 103, 169 *)

(** The wait of a class, by the definition the executor uses for it. *)
Definition backoff_wait (c : failure_class) (retry_count jitter : Z) : Z :=
  match c with
  | NetworkFailure => network_wait retry_count
  | ServerFailure => server_wait retry_count jitter
  | QuotaExhausted => quota_wait retry_count
  end.

Definition wait_cap (c : failure_class) : Z :=
  match c with
  | NetworkFailure => 30
  | ServerFailure => 60
  | QuotaExhausted => 300
  end.

(** ** Errors of a GraphQL response *)

Definition is_object (v : json) : bool :=
  match v with
  | JObj _ => true
  | _ => false
  end.

(** The test the executor applies to one error of the [errors] array. *)
Definition forbidden_type (err : json) : bool :=
  match Py.get err "type" (JStr "") with
  | Ok t => Py.contains "FORBIDDEN" (Py.str t)
  | Raise _ => false
  end.

Definition permission_message (err : json) : bool :=
  match Py.get err "message" (JStr "") with
  | Ok m => Py.contains "permission" (Py.lower (Py.str m))
  | Raise _ => false
  end.

Definition authorization_marker (err : json) : bool :=
  (forbidden_type err || permission_message err)%bool.

(** An authorization or visibility error in the words of the
    specification: an object whose [type] is a string containing FORBIDDEN
    or whose [message] is a string containing permission. *)
Definition field_contains (field needle : string) (err : json) : bool :=
  match err with
  | JObj fields =>
      match Py.lookup_field field fields with
      | Some (JStr t) => Py.contains needle t
      | _ => false
      end
  | _ => false
  end.

Definition names_authorization (err : json) : bool :=
  (field_contains "type" "FORBIDDEN" err
   || field_contains "message" "permission" err)%bool.

(** ** Requests and traces *)

(** The query request of a pass that reaches it in state [s], and the
    state once it is sent. *)
Definition query_request (query : string) (variables : option nat)
    (key : string) (s : state) : request :=
  {| req_site := QueryCall; req_token := key; req_query := query;
     req_variables := payload_variables variables s; req_timeout := 30 |}.

Definition snapshot_request (key : string) : request :=
  {| req_site := RateLimitCall; req_token := key; req_query := rate_limit_query;
     req_variables := None; req_timeout := 10 |}.

Definition sent (r : request) (s : state) : state :=
  count_post (log_event (Post r) s).

(** The seconds slept along a trace. *)
Fixpoint sleeps (tr : list event) : list Q :=
  match tr with
  | [] => []
  | Sleep q :: r => q :: sleeps r
  | Post _ :: r => sleeps r
  end.

Definition is_snapshot (ev : event) : bool :=
  match ev with
  | Post r => match req_site r with RateLimitCall => true | QueryCall => false end
  | Sleep _ => false
  end.

Definition quiet (ev : event) : Prop := is_snapshot ev = false.

Definition any_event : event -> Prop := fun _ => True.

(** Every query of the event carries the variables [d]. *)
Definition carries (d : option dict) (ev : event) : Prop :=
  match ev with
  | Post r => req_site r = QueryCall -> req_variables r = d
  | Sleep _ => True
  end.

(** ** Relations between states, predicates on code *)

(** [s'] comes after [s]: same keys, same objects, no fewer requests, and
    a trace that grew by events that all satisfy [P]. *)
Definition extends (P : event -> Prop) (s s' : state) : Prop :=
  api_keys s' = api_keys s /\
  heap s' = heap s /\
  (posts s <= posts s')%nat /\
  exists tr, trace s' = trace s ++ tr /\ Forall P tr.

(** The trivial invariant of the heap. *)
Definition any_state : state -> Prop := fun _ => True.

(** From a state that satisfies [Inv] (a property of the heap), [m] only
    adds events that satisfy [P], and keeps keys and objects. *)
Definition preserves (P : event -> Prop) (Inv : state -> Prop) {A} (m : M A) : Prop :=
  forall s, Inv s -> extends P s (snd (m s)).

(** Code that does nothing to the client. *)
Definition stateless {A} (m : M A) : Prop := forall s, snd (m s) = s.

(** [m] only produces values that satisfy [Q] (it may also raise). *)
Definition produces {A} (Q : A -> Prop) (m : M A) : Prop :=
  forall s, match fst (m s) with
            | Ok a => Q a
            | Raise _ => True
            end.

(** A pass that goes on does so with the retry count plus one. *)
Definition advanced (rc : Z) (r : iter_result) : Prop :=
  match r with
  | Continue rc' => rc' = rc + 1
  | Return _ | Escape _ => True
  end.

(** A value returned by a pass is [None] or the body of the response. *)
Definition body_or_none (response : Z * option json) (r : iter_result) : Prop :=
  match r with
  | Return v => v = JNull \/ (fst response = 200 /\ snd response = Some v)
  | Continue _ | Escape _ => True
  end.

(** ** Pages *)

(** [pages] are bodies of responses with status 200 that arrived, in this
    order, as answers to requests number [lo] to [hi - 1], and each is a
    usable page. *)
Fixpoint fetched_in_order (W : world) (lo hi : nat) (pages : list json) : Prop :=
  match pages with
  | [] => (lo <= hi)%nat
  | page :: rest =>
      exists i, (lo <= i < hi)%nat /\
                net W i = Response 200 (Some page) /\
                unusable page = Ok false /\
                fetched_in_order W (S i) hi rest
  end.

(** What a pass of the pagination loop can do. *)
Definition pass_outcome (W : world) (p : pager) (s : state)
    (out : option (result pass_result)) (s' : state) : Prop :=
  match out with
  | None => False
  | Some (Raise _) => True
  | Some (Ok Break) => consecutive_failures p + 1 >= max_consecutive_failures
  | Some (Ok (Next p')) =>
      (all_results p' = all_results p /\
       page_count p' = page_count p /\
       has_next p' = has_next p /\
       cursor p' = cursor p /\
       consecutive_failures p' = consecutive_failures p + 1 /\
       consecutive_failures p + 1 < max_consecutive_failures)
      \/
      (exists r i,
         all_results p' = all_results p ++ [r] /\
         page_count p' = page_count p + 1 /\
         consecutive_failures p' = 0 /\
         (posts s <= i < posts s')%nat /\
         net W i = Response 200 (Some r) /\
         unusable r = Ok false)
  end.

(** [r] passes the test of line 224 and is appended. *)
Definition usable (r : json) : bool :=
  match unusable r with
  | Ok false => true
  | _ => false
  end.

(** What the calls of [execute_query] at line 222 gave, one after the
    other, in a run of the pagination loop from the pager [p]. *)
Fixpoint fetched (W : world) (query_template : string) (variables : nat)
    (page_info_path : list string) (max_pages : option Z)
    (fuel : nat) (p : pager) (s : state) : list (result json) :=
  if loop_condition max_pages p then
    match fuel with
    | O => []
    | S fuel' =>
        match execute_query W query_template (Some variables) 5
                (update_cursor variables p s) with
        | (Some r, _) =>
            r :: match paginate_pass W query_template variables page_info_path p s with
                 | (Some (Ok (Next p')), s') =>
                     fetched W query_template variables page_info_path max_pages
                       fuel' p' s'
                 | _ => []
                 end
        | (None, _) => []
        end
    end
  else [].

(** The successful page payloads among what was fetched, in the same
    order. *)
Fixpoint payloads (results : list (result json)) : list json :=
  match results with
  | [] => []
  | Ok r :: rest => if usable r then r :: payloads rest else payloads rest
  | Raise _ :: rest => payloads rest
  end.

(** A pass ends with an exception only from the retry count 33 on, and
    the exception is the [OverflowError] of a sleep. *)
Definition escapes_late (rc : Z) (r : iter_result) : Prop :=
  match r with
  | Escape e => e = OverflowError /\ 33 <= rc
  | _ => True
  end.

(** ** Keys and requests over a run *)

(** The active index points into the pool. *)
Definition in_range (s : state) : Prop :=
  (current_key_index s < length (api_keys s))%nat.

(** [s'] comes after [s] with the same pool of keys, an index that is
    still in range if it was, and at most [k] more requests. *)
Definition evolves (k : nat) (s s' : state) : Prop :=
  api_keys s' = api_keys s /\
  (in_range s -> in_range s') /\
  (posts s <= posts s' <= posts s + k)%nat.

Definition costs (k : nat) {A} (m : M A) : Prop :=
  forall s, evolves k s (snd (m s)).

(** Sum of a list of waits. *)
Fixpoint total (waits : list Z) : Z :=
  match waits with
  | [] => 0
  | w :: rest => w + total rest
  end.

(** An answer that serves as quota snapshot and as a page of followers
    that announces a next page. *)
Definition endless_answer (end_cursor : json) : json :=
  JObj [("data"%string,
    JObj [("rateLimit"%string,
           JObj [("limit"%string, JInt 5000); ("remaining"%string, JInt 5000)]);
          ("user"%string,
           JObj [("followers"%string,
             JObj [("nodes"%string, JArr []);
                   ("pageInfo"%string,
                    JObj [("hasNextPage"%string, JBool true);
                          ("endCursor"%string, end_cursor)])])])])].

(** The trace over a stretch of code: nothing added, or one sleep of
    [w] seconds. *)
Definition sleeps_at_most (w : Z) (s s' : state) : Prop :=
  trace s' = trace s \/ trace s' = trace s ++ [Sleep (inject_Z w)].


(** ** More sample runs *)

Definition single_key : state := new_client ["A"]%string ∅.

(** The quota is fine and every query is answered with [status]. *)
Definition refusing (status : Z) : world :=
  answers [quota_answer 4000] (Response status None).

(** Every request is answered with a page that announces a next one. *)
Definition endless : world :=
  {| net := fun _ => Response 200 (Some (endless_answer (JStr "X")));
     rand := fun _ => 0 |}.

(** A REST API that answers every request alike. *)
Definition rest_refusing (status : Z) (text : string) : nat -> rest_outcome :=
  fun _ => RestResponse status None text.

(** * Properties *)

(** ** The model on sample values *)

Example repr_errors :
  Py.str (JArr [JObj [("type", JStr "NOT_FOUND"); ("path", JArr [JStr "user"]);
                      ("message", JStr "Could not resolve"); ("n", JInt (-3));
                      ("x", JNull)]])
  = "[{'type': 'NOT_FOUND', 'path': ['user'], 'message': 'Could not resolve', 'n': -3, 'x': None}]"%string.
Proof. reflexivity. Qed.

Example repr_apostrophe :
  Py.repr (JStr "can't")
  = String "034"%char ("can't" ++ String "034"%char EmptyString)%string.
Proof. reflexivity. Qed.

(** [len] of a string counts characters: two for the six bytes of UTF-8
    of a word of two ideograms; [len] of a dictionary counts keys. *)
Example len_counts_characters :
  py_len (JStr (String "230" (String "151" (String "165"
                 (String "230" (String "156" (String "172" EmptyString)))))))
  = Ok 2 /\
  py_len (JStr "octocat") = Ok 7 /\
  py_len (JObj [("a"%string, JInt 1); ("b"%string, JNull)]) = Ok 2.
Proof. repeat split. Qed.

Example two_pages_run :
  fst (paginate_query two_pages "q" 7 ["user"; "followers"]%string None 10
         (new_client ["A"; "B"]%string {[ 7%nat := caller_variables ]}))
  = Some (Ok [followers_page true (JStr "X"); followers_page false (JStr "Y")]).
Proof. vm_compute. reflexivity. Qed.

(** ** Key rotation *)

Lemma graphql_rotates : rotates rotate_key.
Proof.
  intros s. unfold rotate_key, next_index.
  destruct (length (api_keys s) <=? 1)%nat; simpl; auto.
Qed.

Lemma rest_rotates : rotates Rest.rotate_key.
Proof.
  intros s. unfold Rest.rotate_key, next_index.
  destruct (length (api_keys s) <=? 1)%nat; simpl; auto.
Qed.

Lemma next_index_lt n i : (i < n)%nat -> (next_index n i < n)%nat.
Proof.
  intros Hi. unfold next_index.
  destruct (n <=? 1)%nat eqn:E; [exact Hi|].
  apply Nat.mod_upper_bound. lia.
Qed.

Lemma rotate_times_keys rot (Hrot : rotates rot) k :
  forall s, api_keys (rotate_times rot k s) = api_keys s.
Proof.
  induction k as [|k IH]; intros s; simpl; [reflexivity|].
  rewrite IH. apply Hrot.
Qed.

Lemma rotate_times_index rot (Hrot : rotates rot) k :
  forall s,
    (2 <= length (api_keys s))%nat ->
    (current_key_index s < length (api_keys s))%nat ->
    current_key_index (rotate_times rot k s)
      = ((current_key_index s + k) mod length (api_keys s))%nat.
Proof.
  induction k as [|k IH]; intros s Hn Hi; simpl.
  - rewrite Nat.add_0_r, Nat.mod_small; auto.
  - destruct (Hrot s) as (Hk & Hx & _).
    rewrite IH; rewrite Hk; try rewrite Hx; auto.
    + unfold next_index. destruct (Nat.leb_spec (length (api_keys s)) 1); [lia|].
      rewrite Nat.Div0.add_mod_idemp_l. f_equal. lia.
    + apply next_index_lt; auto.
Qed.

Lemma rotate_times_single rot (Hrot : rotates rot) k :
  forall s,
    length (api_keys s) = 1%nat ->
    current_key_index (rotate_times rot k s) = current_key_index s.
Proof.
  induction k as [|k IH]; intros s Hn; simpl; [reflexivity|].
  destruct (Hrot s) as (Hk & Hx & _).
  rewrite IH by congruence. rewrite Hx, Hn. reflexivity.
Qed.

Lemma rotate_circular rot (Hrot : rotates rot) (s : state) :
  (1 <= length (api_keys s))%nat ->
  (current_key_index s < length (api_keys s))%nat ->
  let n := length (api_keys s) in
  current_key_index (rotate_times rot n s) = current_key_index s /\
  nth_error (api_keys (rotate_times rot n s))
            (current_key_index (rotate_times rot n s))
    = nth_error (api_keys s) (current_key_index s) /\
  (forall k, (current_key_index (rotate_times rot k s) < n)%nat) /\
  (n = 1%nat ->
   forall k,
     fst (rot (rotate_times rot k s)) = Ok false /\
     current_key_index (snd (rot (rotate_times rot k s))) = current_key_index s).
Proof.
  intros Hn Hi n.
  assert (Hback : current_key_index (rotate_times rot n s) = current_key_index s).
  { destruct (Nat.eq_dec n 1%nat) as [H1|H1].
    - apply rotate_times_single; auto.
    - rewrite rotate_times_index by (auto; lia).
      fold n. replace (current_key_index s + n)%nat
        with (current_key_index s + 1 * n)%nat by lia.
      rewrite Nat.Div0.mod_add. apply Nat.mod_small. exact Hi. }
  split; [exact Hback|]. split.
  { rewrite Hback, rotate_times_keys; auto. }
  split.
  - intros k. destruct (Nat.eq_dec n 1%nat) as [H1|H1].
    + rewrite rotate_times_single; auto.
    + rewrite rotate_times_index by (auto; lia).
      apply Nat.mod_upper_bound. lia.
  - intros H1 k.
    destruct (Hrot (rotate_times rot k s)) as (Hk & Hx & Hr).
    rewrite Hr, Hx, rotate_times_keys by auto. fold n. rewrite H1. simpl.
    split; [reflexivity|]. apply rotate_times_single; auto.
Qed.

(** C4: in a pool of [N >= 1] keys with the active index in range, [N]
    calls of [rotate_key] come back to the key that was active, the index
    stays in [0 <= idx < N] after any number of rotations, and with one
    key every call answers false and leaves the index alone.  This holds
    for the GraphQL client and for the REST client. *)
Theorem rotate_key_circular (s : state) :
  (1 <= length (api_keys s))%nat ->
  (current_key_index s < length (api_keys s))%nat ->
  let n := length (api_keys s) in
  (current_key_index (rotate_times rotate_key n s) = current_key_index s /\
   nth_error (api_keys (rotate_times rotate_key n s))
             (current_key_index (rotate_times rotate_key n s))
     = nth_error (api_keys s) (current_key_index s) /\
   (forall k, (current_key_index (rotate_times rotate_key k s) < n)%nat) /\
   (n = 1%nat ->
    forall k,
      fst (rotate_key (rotate_times rotate_key k s)) = Ok false /\
      current_key_index (snd (rotate_key (rotate_times rotate_key k s)))
        = current_key_index s)) /\
  (current_key_index (rotate_times Rest.rotate_key n s) = current_key_index s /\
   nth_error (api_keys (rotate_times Rest.rotate_key n s))
             (current_key_index (rotate_times Rest.rotate_key n s))
     = nth_error (api_keys s) (current_key_index s) /\
   (forall k, (current_key_index (rotate_times Rest.rotate_key k s) < n)%nat) /\
   (n = 1%nat ->
    forall k,
      fst (Rest.rotate_key (rotate_times Rest.rotate_key k s)) = Ok false /\
      current_key_index (snd (Rest.rotate_key (rotate_times Rest.rotate_key k s)))
        = current_key_index s)).
Proof.
  intros Hn Hi n. split.
  - apply (rotate_circular rotate_key graphql_rotates s Hn Hi).
  - apply (rotate_circular Rest.rotate_key rest_rotates s Hn Hi).
Qed.

(** ** Backoff waits *)

(** The jitter of a server error lies between 0 and 10. *)
Lemma randint_range a b r : a <= b -> a <= Py.randint a b r <= b.
Proof.
  intros Hab. unfold Py.randint.
  pose proof (Z.mod_pos_bound r (b - a + 1)). lia.
Qed.

Lemma power_mono r1 r2 : r1 <= r2 -> backoff_base ^ r1 <= backoff_base ^ r2.
Proof. intros H. apply Z.pow_le_mono_r; [reflexivity | exact H]. Qed.

(** ** Sleeping *)

Lemma SLEEP_MAX_seconds : SLEEP_MAX = 9223372036.
Proof. reflexivity. Qed.

Lemma sleep_ok seconds s :
  0 <= seconds <= SLEEP_MAX ->
  sleep seconds s = (Ok tt, log_event (Sleep (inject_Z seconds)) s).
Proof.
  intros [H0 H1]. unfold sleep.
  rewrite (proj2 (Z.ltb_ge _ _) H0), (proj2 (Z.ltb_ge _ _) H1). reflexivity.
Qed.

Lemma sleep_too_long seconds s :
  SLEEP_MAX < seconds -> sleep seconds s = (Raise OverflowError, s).
Proof.
  intros H. unfold sleep.
  assert (H0 : 0 <= seconds) by (rewrite SLEEP_MAX_seconds in H; lia).
  rewrite (proj2 (Z.ltb_ge _ _) H0), (proj2 (Z.ltb_lt _ _) H). reflexivity.
Qed.

(** What a sleep can do: sleep, or raise and leave the client as it is. *)
Lemma sleep_cases seconds s :
  (0 <= seconds <= SLEEP_MAX /\
   sleep seconds s = (Ok tt, log_event (Sleep (inject_Z seconds)) s)) \/
  (seconds < 0 /\ sleep seconds s = (Raise ValueError, s)) \/
  (SLEEP_MAX < seconds /\ sleep seconds s = (Raise OverflowError, s)).
Proof.
  unfold sleep.
  destruct (Z.ltb_spec seconds 0); [right; left; auto|].
  destruct (Z.ltb_spec SLEEP_MAX seconds); [right; right; auto|].
  left. split; [lia | reflexivity].
Qed.

(** [2 ** 33] seconds is the longest wait of the form [2 ** k] that
    [time.sleep] accepts. *)
Lemma power_accepted k : k <= 33 -> 0 <= backoff_base ^ k <= SLEEP_MAX.
Proof.
  intros H. split; [apply Z.pow_nonneg; unfold backoff_base; lia|].
  transitivity (backoff_base ^ 33); [apply power_mono, H|].
  vm_compute. discriminate.
Qed.

Lemma power_refused k : 34 <= k -> SLEEP_MAX < backoff_base ^ k.
Proof.
  intros H. apply Z.lt_le_trans with (backoff_base ^ 34);
    [reflexivity | apply power_mono, H].
Qed.

Lemma on_exception_sleeps rc s :
  rc <= 32 ->
  on_exception rc s =
    (Continue (rc + 1), log_event (Sleep (inject_Z (backoff_base ^ (rc + 1)))) s).
Proof.
  intros H. unfold on_exception.
  rewrite (sleep_ok _ s (power_accepted (rc + 1) ltac:(lia))). reflexivity.
Qed.

Lemma on_exception_escapes rc s :
  33 <= rc -> on_exception rc s = (Escape OverflowError, s).
Proof.
  intros H. unfold on_exception.
  rewrite (sleep_too_long _ s (power_refused (rc + 1) ltac:(lia))). reflexivity.
Qed.

Lemma sleep_incremented_sleeps rc s :
  rc <= 32 ->
  sleep_incremented rc s =
    (Ok (Continue (rc + 1)),
     log_event (Sleep (inject_Z (backoff_base ^ (rc + 1)))) s).
Proof.
  intros H. unfold sleep_incremented.
  rewrite (sleep_ok _ s (power_accepted (rc + 1) ltac:(lia))). reflexivity.
Qed.

Lemma sleep_incremented_escapes rc s :
  33 <= rc -> sleep_incremented rc s = (Ok (Escape OverflowError), s).
Proof.
  intros H. unfold sleep_incremented.
  rewrite (sleep_too_long _ s (power_refused (rc + 1) ltac:(lia))).
  rewrite (on_exception_escapes (rc + 1) s ltac:(lia)). reflexivity.
Qed.

(** The two ways of [on_exception] and of [sleep_incremented]. *)
Lemma on_exception_cases rc s :
  (rc <= 32 /\
   on_exception rc s =
     (Continue (rc + 1), log_event (Sleep (inject_Z (backoff_base ^ (rc + 1)))) s)) \/
  (33 <= rc /\ on_exception rc s = (Escape OverflowError, s)).
Proof.
  destruct (Z.le_gt_cases rc 32) as [H|H].
  - left. split; [exact H | apply on_exception_sleeps, H].
  - right. split; [lia | apply on_exception_escapes; lia].
Qed.

Lemma sleep_incremented_cases rc s :
  (rc <= 32 /\
   sleep_incremented rc s =
     (Ok (Continue (rc + 1)),
      log_event (Sleep (inject_Z (backoff_base ^ (rc + 1)))) s)) \/
  (33 <= rc /\ sleep_incremented rc s = (Ok (Escape OverflowError), s)).
Proof.
  destruct (Z.le_gt_cases rc 32) as [H|H].
  - left. split; [exact H | apply sleep_incremented_sleeps, H].
  - right. split; [lia | apply sleep_incremented_escapes; lia].
Qed.

(** C6 (as amended): every wait is at most the cap of its class, and the
    wait does not decrease when the retry count grows and the jitter does
    not shrink; in particular it is non-decreasing in the retry count for
    the two classes without jitter, and for server errors at equal jitter. *)
Theorem backoff_wait_monotone_capped (c : failure_class) (r1 r2 j1 j2 : Z) :
  r1 <= r2 -> j1 <= j2 ->
  backoff_wait c r1 j1 <= backoff_wait c r2 j2 /\
  backoff_wait c r1 j1 <= wait_cap c /\
  backoff_wait c r2 j2 <= wait_cap c.
Proof.
  intros Hr Hj. pose proof (power_mono r1 r2 Hr) as Hp.
  destruct c; unfold backoff_wait, wait_cap, network_wait, server_wait, quota_wait;
    repeat split; lia.
Qed.

Lemma backoff_wait_monotone_capped_witness :
  backoff_wait ServerFailure 2 4 <= backoff_wait ServerFailure 3 4 /\
  backoff_wait ServerFailure 2 4 <= wait_cap ServerFailure /\
  backoff_wait ServerFailure 3 4 <= wait_cap ServerFailure.
Proof.
  apply (backoff_wait_monotone_capped ServerFailure 2 3 4 4); lia.
Defined.

(** C6 (counterexample): in one call the server-error wait at retry 2 is
    14 s (jitter 10) and the wait at retry 3 is 8 s (jitter 0): the waits
    of a class are not monotone in the retry count for every jitter. *)
Lemma server_wait_decreases_under_jitter :
  sleeps (trace (snd (execute_query failing_server "q" None 5 (new_client ["A"; "B"]%string ∅))))
    = map inject_Z [1; 2; 14; 8; 16] /\
  backoff_wait ServerFailure 2 (Py.randint 0 10 10) = 14 /\
  backoff_wait ServerFailure 3 (Py.randint 0 10 0) = 8 /\
  ~ (forall r1 r2 j1 j2 : Z,
       0 <= r1 <= r2 -> 0 <= j1 <= 10 -> 0 <= j2 <= 10 ->
       backoff_wait ServerFailure r1 j1 <= backoff_wait ServerFailure r2 j2).
Proof.
  split; [vm_compute; reflexivity|].
  split; [reflexivity|]. split; [reflexivity|].
  intros H.
  assert (Hle : backoff_wait ServerFailure 2 10 <= backoff_wait ServerFailure 3 0)
    by (apply H; lia).
  vm_compute in Hle. apply Hle. reflexivity.
Qed.

(** ** The executor: responses with status 200 *)

Lemma bind_ok {A B} (m : M A) (f : A -> M B) s a s1 :
  m s = (Ok a, s1) -> bind m f s = f a s1.
Proof. intros H. unfold bind. rewrite H. reflexivity. Qed.

Lemma prefix_lower n : forall s,
  String.prefix n s = true -> String.prefix (Py.lower n) (Py.lower s) = true.
Proof.
  induction n as [|a n IH]; intros s H; [destruct s; reflexivity|].
  destruct s as [|b s]; [discriminate|]. simpl in *.
  destruct (Ascii.ascii_dec a b) as [->|]; [|discriminate].
  destruct (Ascii.ascii_dec (Py.ascii_lower b) (Py.ascii_lower b)); [|congruence].
  apply IH, H.
Qed.

Lemma contains_lower n : forall s,
  Py.contains n s = true -> Py.contains (Py.lower n) (Py.lower s) = true.
Proof.
  induction s as [|c s IH]; simpl; intros H.
  - destruct n; [reflexivity | discriminate].
  - apply orb_true_iff in H. apply orb_true_iff. destruct H as [H|H].
    + left. apply (prefix_lower n (String c s)), H.
    + right. apply IH, H.
Qed.

Lemma names_authorization_marker err :
  names_authorization err = true ->
  is_object err = true /\ authorization_marker err = true.
Proof.
  unfold names_authorization, field_contains, authorization_marker,
    forbidden_type, permission_message.
  destruct err as [| | | |?|fields]; try discriminate. simpl.
  intros H. split; [reflexivity|].
  apply orb_true_iff in H. apply orb_true_iff. destruct H as [H|H].
  - left. destruct (Py.lookup_field "type" fields) as [[]|]; try discriminate.
    exact H.
  - right. destruct (Py.lookup_field "message" fields) as [[]|]; try discriminate.
    apply (contains_lower "permission"), H.
Qed.

Lemma has_forbidden_objects errs :
  forallb is_object errs = true ->
  has_forbidden (JArr errs) = Ok (existsb forbidden_type errs).
Proof.
  unfold has_forbidden. simpl.
  induction errs as [|err errs IH]; simpl; intros H; [reflexivity|].
  apply andb_true_iff in H. destruct H as [Ho H].
  destruct err; try discriminate. unfold forbidden_type at 1. simpl.
  destruct (Py.contains "FORBIDDEN" _); [reflexivity|]. apply IH, H.
Qed.

Lemma has_permission_objects errs :
  forallb is_object errs = true ->
  has_permission_error (JArr errs) = Ok (existsb permission_message errs).
Proof.
  unfold has_permission_error. simpl.
  induction errs as [|err errs IH]; simpl; intros H; [reflexivity|].
  apply andb_true_iff in H. destruct H as [Ho H].
  destruct err; try discriminate. unfold permission_message at 1. simpl.
  destruct (Py.contains "permission" _); [reflexivity|]. apply IH, H.
Qed.

Lemma existsb_marker errs :
  (existsb forbidden_type errs || existsb permission_message errs)%bool
  = existsb authorization_marker errs.
Proof.
  induction errs as [|err errs IH]; [reflexivity|]. simpl.
  rewrite <- IH. unfold authorization_marker.
  destruct (forbidden_type err), (permission_message err),
    (existsb forbidden_type errs); reflexivity.
Qed.

Lemma getitem_object body key x :
  Py.getitem body key = Ok x ->
  exists fields, body = JObj fields /\ Py.lookup_field key fields = Some x.
Proof.
  destruct body; try discriminate. simpl.
  destruct (Py.lookup_field key fields) eqn:E; [|discriminate].
  intros [= ->]. eauto.
Qed.

(** What [handle_200] does with a body whose [errors] is an array of
    objects: the tests on the errors decide. *)
Lemma handle_200_errors rc body errs s :
  Py.getitem body "errors" = Ok (JArr errs) ->
  forallb is_object errs = true ->
  handle_200 rc (Some body) s =
    if existsb authorization_marker errs then
      match Py.contains_key "data" body with
      | Ok true => (Ok (Return body), s)
      | Ok false => (Ok (Return JNull), s)
      | Raise e => (Raise e, s)
      end
    else if Py.contains "rate limit" (Py.lower (Py.str (JArr errs))) then
      (rotate_key ;; ret (Continue (rc + 1))) s
    else if Py.contains "timeout" (Py.lower (Py.str (JArr errs))) then
      sleep_incremented rc s
    else (Ok (Return body), s).
Proof.
  intros He Ho.
  destruct (getitem_object _ _ _ He) as (fields & -> & Hl).
  unfold handle_200, bind, lift, ret.
  cbn [response_json Py.contains_key Py.getitem]. rewrite Hl.
  rewrite has_forbidden_objects, has_permission_objects by exact Ho.
  rewrite existsb_marker.
  destruct (existsb authorization_marker errs).
  - destruct (Py.lookup_field "data" fields); reflexivity.
  - destruct (Py.contains "rate limit" _); [reflexivity|].
    destruct (Py.contains "timeout" _); reflexivity.
Qed.

(** A pass whose quota check lets it through, with an active key, and
    whose query is answered with status 200. *)
Lemma try_body_200 W query variables rc s s1 key body :
  rate_limit_gate W rc s = (Ok None, s1) ->
  nth_error (api_keys s1) (current_key_index s1) = Some key ->
  net W (posts s1) = Response 200 body ->
  try_body W query variables rc s =
    handle_200 rc body (sent (query_request query variables key s1) s1).
Proof.
  intros Hg Hk Hn. unfold try_body.
  rewrite (bind_ok _ _ _ _ _ Hg).
  unfold send_request, post, current_key, bind.
  rewrite Hk, Hn. reflexivity.
Qed.

Lemma loop_returns W query variables max_retries fuel rc s v s' :
  rc < max_retries ->
  execute_attempt W query variables rc s = (Return v, s') ->
  execute_loop W query variables max_retries (S fuel) rc s = (Some (Ok v), s').
Proof.
  intros Hrc Ha. cbn [execute_loop].
  rewrite (proj2 (Z.ltb_lt _ _) Hrc), Ha. reflexivity.
Qed.

Lemma existsb_names_authorization errs :
  existsb names_authorization errs = true ->
  existsb authorization_marker errs = true.
Proof.
  intros H. apply existsb_exists in H. destruct H as (err & Hin & Hm).
  apply existsb_exists. exists err. split; [exact Hin|].
  apply names_authorization_marker, Hm.
Qed.

(** C1: a response with status 200 that has [data] and an [errors] array
    with an authorization marker ends the call at once: the pass returns
    the response itself (so its [data] is what the server sent), the retry
    count is not incremented, and nothing is sent or slept after the
    query. *)
Theorem authorization_errors_with_data
    W query variables max_retries fuel rc s s1 key body errs d :
  rc < max_retries ->
  rate_limit_gate W rc s = (Ok None, s1) ->
  nth_error (api_keys s1) (current_key_index s1) = Some key ->
  net W (posts s1) = Response 200 (Some body) ->
  Py.getitem body "errors" = Ok (JArr errs) ->
  Py.getitem body "data" = Ok d ->
  forallb is_object errs = true ->
  existsb names_authorization errs = true ->
  let s2 := sent (query_request query variables key s1) s1 in
  execute_attempt W query variables rc s = (Return body, s2) /\
  execute_loop W query variables max_retries (S fuel) rc s = (Some (Ok body), s2) /\
  Py.getitem body "data" = Ok d /\
  posts s2 = S (posts s1) /\
  trace s2 = trace s1 ++ [Post (query_request query variables key s1)].
Proof.
  intros Hrc Hg Hk Hn He Hd Ho Hm s2.
  assert (Ha : execute_attempt W query variables rc s = (Return body, s2)).
  { unfold execute_attempt.
    rewrite (try_body_200 _ _ _ _ _ _ _ _ Hg Hk Hn).
    rewrite (handle_200_errors _ _ _ _ He Ho).
    rewrite (existsb_names_authorization _ Hm).
    destruct (getitem_object _ _ _ Hd) as (fields & -> & Hl).
    simpl. rewrite Hl. reflexivity. }
  split; [exact Ha|]. split; [apply loop_returns; assumption|].
  split; [exact Hd|]. split; reflexivity.
Qed.

Lemma forallb_names_authorization errs :
  errs <> [] ->
  forallb names_authorization errs = true ->
  forallb is_object errs = true /\ existsb authorization_marker errs = true.
Proof.
  intros Hne Hall. split.
  - apply forallb_forall. intros err Hin.
    apply names_authorization_marker.
    exact (proj1 (forallb_forall _ _) Hall err Hin).
  - destruct errs as [|err errs]; [congruence|]. simpl in *.
    apply andb_true_iff in Hall. destruct Hall as [Hm _].
    apply names_authorization_marker in Hm. destruct Hm as [_ ->]. reflexivity.
Qed.

Lemma handle_200_none rc s r s' :
  handle_200 rc (Some JNull) s = (Ok r, s') -> False.
Proof. unfold handle_200, bind, lift. simpl. discriminate. Qed.

(** A response without [errors] is returned as it is. *)
Lemma handle_200_success rc body s :
  Py.contains_key "errors" body = Ok false ->
  handle_200 rc (Some body) s = (Ok (Return body), s).
Proof.
  intros H. unfold handle_200, bind, lift, ret. cbn [response_json].
  rewrite H. reflexivity.
Qed.

(** C2: a response with status 200 whose [errors] are all authorization
    markers and which has no [data] ends the call at once with [None];
    no retry is consumed and nothing is sent or slept after the query.
    [None] is not what a success gives, however empty: a response with
    status 200 and no [errors] is returned as it is, and it is not [None];
    and whenever the executor hands back the body of a response, that body
    is not [None]. *)
Theorem authorization_errors_without_data
    W query variables max_retries fuel rc s s1 key body errs :
  rc < max_retries ->
  rate_limit_gate W rc s = (Ok None, s1) ->
  nth_error (api_keys s1) (current_key_index s1) = Some key ->
  net W (posts s1) = Response 200 (Some body) ->
  Py.getitem body "errors" = Ok (JArr errs) ->
  Py.contains_key "data" body = Ok false ->
  errs <> [] ->
  forallb names_authorization errs = true ->
  let s2 := sent (query_request query variables key s1) s1 in
  execute_attempt W query variables rc s = (Return JNull, s2) /\
  execute_loop W query variables max_retries (S fuel) rc s = (Some (Ok JNull), s2) /\
  posts s2 = S (posts s1) /\
  trace s2 = trace s1 ++ [Post (query_request query variables key s1)] /\
  (forall W' rc' t t1 key' success,
     rc' < max_retries ->
     rate_limit_gate W' rc' t = (Ok None, t1) ->
     nth_error (api_keys t1) (current_key_index t1) = Some key' ->
     net W' (posts t1) = Response 200 (Some success) ->
     Py.contains_key "errors" success = Ok false ->
     execute_loop W' query variables max_retries (S fuel) rc' t
       = (Some (Ok success), sent (query_request query variables key' t1) t1) /\
     success <> JNull) /\
  (forall rc' b t t', handle_200 rc' (Some b) t = (Ok (Return b), t') -> b <> JNull).
Proof.
  intros Hrc Hg Hk Hn He Hd Hne Hall s2.
  destruct (forallb_names_authorization _ Hne Hall) as [Ho Hm].
  assert (Ha : execute_attempt W query variables rc s = (Return JNull, s2)).
  { unfold execute_attempt.
    rewrite (try_body_200 _ _ _ _ _ _ _ _ Hg Hk Hn).
    rewrite (handle_200_errors _ _ _ _ He Ho), Hm, Hd. reflexivity. }
  split; [exact Ha|]. split; [apply loop_returns; assumption|].
  split; [reflexivity|]. split; [reflexivity|]. split.
  - intros W' rc' t t1 key' success Hrc' Hg' Hk' Hn' Hs. split.
    + apply loop_returns; [exact Hrc'|]. unfold execute_attempt.
      rewrite (try_body_200 _ _ _ _ _ _ _ _ Hg' Hk' Hn').
      rewrite (handle_200_success _ _ _ Hs). reflexivity.
    + intros ->. discriminate Hs.
  - intros rc' b t t' Hb ->. exact (handle_200_none _ _ _ _ Hb).
Qed.

(** C3 (as amended): a response with status 200 whose [errors] are not
    authorization markers and mention neither a rate limit nor a timeout
    is handed back to the caller as it is, errors included: the pass
    returns it at once, without backoff and without a retry. *)
Theorem unclassified_errors_returned
    W query variables max_retries fuel rc s s1 key body errs :
  rc < max_retries ->
  rate_limit_gate W rc s = (Ok None, s1) ->
  nth_error (api_keys s1) (current_key_index s1) = Some key ->
  net W (posts s1) = Response 200 (Some body) ->
  Py.getitem body "errors" = Ok (JArr errs) ->
  forallb is_object errs = true ->
  existsb authorization_marker errs = false ->
  Py.contains "rate limit" (Py.lower (Py.str (JArr errs))) = false ->
  Py.contains "timeout" (Py.lower (Py.str (JArr errs))) = false ->
  let s2 := sent (query_request query variables key s1) s1 in
  execute_attempt W query variables rc s = (Return body, s2) /\
  execute_loop W query variables max_retries (S fuel) rc s = (Some (Ok body), s2) /\
  posts s2 = S (posts s1) /\
  trace s2 = trace s1 ++ [Post (query_request query variables key s1)].
Proof.
  intros Hrc Hg Hk Hn He Ho Hm Hr Ht s2.
  assert (Ha : execute_attempt W query variables rc s = (Return body, s2)).
  { unfold execute_attempt.
    rewrite (try_body_200 _ _ _ _ _ _ _ _ Hg Hk Hn).
    rewrite (handle_200_errors _ _ _ _ He Ho), Hm, Hr, Ht. reflexivity. }
  split; [exact Ha|]. split; [apply loop_returns; assumption|].
  split; reflexivity.
Qed.

(** C3 (counterexample): the errors of [user_not_found] are unclassified,
    and the server would repeat them for ever, yet [execute_query] does
    not back off, retry or fail: it returns the response carrying the
    errors after one quota check and one query. *)
Lemma unclassified_errors_not_retried :
  let errs := [JObj [("type"%string, JStr "NOT_FOUND");
                     ("path"%string, JArr [JStr "user"]);
                     ("message"%string,
                      JStr "Could not resolve to a User with the login of 'nobody'.")]] in
  let run := execute_query not_found_server "q" None 5
               (new_client ["A"; "B"]%string ∅) in
  Py.getitem user_not_found "errors" = Ok (JArr errs) /\
  existsb authorization_marker errs = false /\
  Py.contains "rate limit" (Py.lower (Py.str (JArr errs))) = false /\
  Py.contains "timeout" (Py.lower (Py.str (JArr errs))) = false /\
  fst run = Some (Ok user_not_found) /\
  fst run <> Some (Ok JNull) /\
  posts (snd run) = 2%nat /\
  sleeps (trace (snd run)) = [].
Proof. vm_compute. repeat split; discriminate. Qed.

(** ** What the executor leaves alone *)

Lemma extends_refl P s : extends P s s.
Proof.
  repeat split; auto. exists []. split; [symmetry; apply app_nil_r | constructor].
Qed.

Lemma extends_trans P s1 s2 s3 :
  extends P s1 s2 -> extends P s2 s3 -> extends P s1 s3.
Proof.
  intros (Hk1 & Hh1 & Hp1 & tr1 & Ht1 & Hf1) (Hk2 & Hh2 & Hp2 & tr2 & Ht2 & Hf2).
  repeat split; try congruence; try lia.
  exists (tr1 ++ tr2). split.
  - rewrite Ht2, Ht1. symmetry. apply app_assoc.
  - apply Forall_app. split; assumption.
Qed.

Lemma extends_log P ev s : P ev -> extends P s (log_event ev s).
Proof.
  intros HP. repeat split; auto. exists [ev]. split; [reflexivity|].
  constructor; [exact HP | constructor].
Qed.

Lemma produces_bind {A B} (Qa : A -> Prop) (Q : B -> Prop) (m : M A) (f : A -> M B) :
  produces Qa m -> (forall a, Qa a -> produces Q (f a)) -> produces Q (bind m f).
Proof.
  intros Hm Hf s. unfold bind. specialize (Hm s).
  destruct (m s) as [[a|e] s1]; [apply Hf, Hm | exact I].
Qed.

Lemma produces_any {A} (m : M A) : produces (fun _ => True) m.
Proof. intros s. destruct (fst (m s)); exact I. Qed.

Lemma produces_ret {A} (Q : A -> Prop) a : Q a -> produces Q (ret a).
Proof. intros H s. exact H. Qed.

Lemma produces_sleep_incremented (Q : iter_result -> Prop) rc :
  Q (Continue (rc + 1)) -> (forall e, Q (Escape e)) ->
  produces Q (sleep_incremented rc).
Proof.
  intros Hc He s.
  destruct (sleep_incremented_cases rc s) as [[_ ->]|[_ ->]]; simpl; auto.
Qed.

Ltac produces_tac :=
  repeat first
    [ apply produces_ret; simpl; auto; fail
    | apply produces_sleep_incremented; simpl; auto; fail
    | eapply produces_bind; [apply produces_any | intros ? _]
    | match goal with
      | |- produces _ (if ?b then _ else _) => destruct b
      | |- produces _ (match ?x with _ => _ end) => destruct x
      end ].

Lemma handle_response_advances W rc response :
  produces (advanced rc) (handle_response W rc response).
Proof. unfold handle_response, handle_200. produces_tac. Qed.

Lemma rate_limit_gate_advances W rc :
  produces (fun gate => match gate with
                        | Some r => r = Continue (rc + 1)
                        | None => True
                        end) (rate_limit_gate W rc).
Proof. unfold rate_limit_gate. produces_tac. Qed.

Lemma try_body_advances W query variables rc :
  produces (advanced rc) (try_body W query variables rc).
Proof.
  unfold try_body. eapply produces_bind; [apply rate_limit_gate_advances|].
  intros [r|] Hr.
  - apply produces_ret. rewrite Hr. reflexivity.
  - unfold send_request. eapply produces_bind; [apply produces_any|].
    intros response _. apply handle_response_advances.
Qed.

Lemma execute_attempt_advances W query variables rc s :
  advanced rc (fst (execute_attempt W query variables rc s)).
Proof.
  unfold execute_attempt.
  pose proof (try_body_advances W query variables rc s) as H.
  destruct (try_body W query variables rc s) as [[r|e] s']; simpl in *.
  - exact H.
  - destruct e; try reflexivity;
      destruct (on_exception_cases rc s') as [[_ ->]|[_ ->]]; reflexivity.
Qed.

(** [execute_query] comes to an end: the retry count grows with every
    pass, so the loop is over after [max_retries] passes. *)
Lemma execute_loop_returns W query variables max_retries fuel :
  forall rc s,
    (Z.to_nat (max_retries - rc) <= fuel)%nat ->
    fst (execute_loop W query variables max_retries fuel rc s) <> None.
Proof.
  induction fuel as [|fuel IH]; intros rc s Hf; cbn [execute_loop];
    destruct (Z.ltb_spec rc max_retries) as [Hlt|Hge]; try (simpl; congruence).
  - lia.
  - pose proof (execute_attempt_advances W query variables rc s) as Ha.
    destruct (execute_attempt W query variables rc s) as [[v|rc'|e] s'];
      simpl in *; try congruence.
    subst rc'. apply IH. lia.
Qed.

Lemma execute_query_returns W query variables max_retries s :
  exists v, fst (execute_query W query variables max_retries s) = Some v.
Proof.
  pose proof (execute_loop_returns W query variables max_retries
                (Z.to_nat max_retries) 0 s) as H.
  unfold execute_query.
  destruct (fst (execute_loop _ _ _ _ _ _ _)) as [v|].
  - eauto.
  - exfalso. apply H; [|reflexivity]. rewrite Z.sub_0_r. lia.
Qed.

Lemma post_state W site query variables timeout s :
  snd (post W site query variables timeout s) =
    match nth_error (api_keys s) (current_key_index s) with
    | Some key =>
        sent {| req_site := site; req_token := key; req_query := query;
                req_variables := payload_variables variables s;
                req_timeout := timeout |} s
    | None => s
    end.
Proof.
  unfold post, current_key, bind.
  destruct (nth_error (api_keys s) (current_key_index s)) as [key|];
    [|reflexivity].
  destruct (net W (posts s)); reflexivity.
Qed.

Section Frame.

Variable P : event -> Prop.
Variable Inv : state -> Prop.
Variable query : string.
Variable variables : option nat.

Hypothesis P_sleep : forall q, P (Sleep q).
Hypothesis Inv_heap : forall s s', heap s' = heap s -> Inv s -> Inv s'.
Hypothesis P_query :
  forall s key, Inv s -> P (Post (query_request query variables key s)).

Lemma extends_inv s s' : extends P s s' -> Inv s -> Inv s'.
Proof. intros (_ & Hh & _) HI. exact (Inv_heap s s' Hh HI). Qed.

Lemma preserves_ret {A} (a : A) : preserves P Inv (ret a).
Proof. intros s _. apply extends_refl. Qed.

Lemma preserves_lift {A} (r : result A) : preserves P Inv (lift r).
Proof. intros s _. apply extends_refl. Qed.

Lemma preserves_bind {A B} (m : M A) (f : A -> M B) :
  preserves P Inv m -> (forall a, preserves P Inv (f a)) -> preserves P Inv (bind m f).
Proof.
  intros Hm Hf s HI. unfold bind. specialize (Hm s HI).
  destruct (m s) as [[a|e] s1]; simpl in *.
  - eapply extends_trans; [exact Hm | apply Hf, (extends_inv s s1 Hm HI)].
  - exact Hm.
Qed.

Lemma preserves_sleep seconds : preserves P Inv (sleep seconds).
Proof.
  intros s _.
  destruct (sleep_cases seconds s) as [[_ ->]|[[_ ->]|[_ ->]]]; simpl;
    [apply extends_log, P_sleep | apply extends_refl ..].
Qed.

Lemma extends_on_exception rc s : extends P s (snd (on_exception rc s)).
Proof.
  destruct (on_exception_cases rc s) as [[_ ->]|[_ ->]]; simpl;
    [apply extends_log, P_sleep | apply extends_refl].
Qed.

Lemma preserves_sleep_incremented rc : preserves P Inv (sleep_incremented rc).
Proof.
  intros s _.
  destruct (sleep_incremented_cases rc s) as [[_ ->]|[_ ->]]; simpl;
    [apply extends_log, P_sleep | apply extends_refl].
Qed.

Lemma preserves_rate_limit_wait seconds : preserves P Inv (rate_limit_wait seconds).
Proof.
  unfold rate_limit_wait. induction (Z.to_nat seconds) as [|n IH]; simpl.
  - apply preserves_ret.
  - apply preserves_bind; [apply preserves_sleep | intros _; exact IH].
Qed.

Lemma preserves_rotate_key : preserves P Inv rotate_key.
Proof.
  intros s _. unfold rotate_key.
  destruct (length (api_keys s) <=? 1)%nat; simpl; [apply extends_refl|].
  repeat split; auto. exists [Sleep (inject_Z 1)]. split; [reflexivity|].
  constructor; [apply P_sleep | constructor].
Qed.

Lemma preserves_randint W a b : preserves P Inv (randint W a b).
Proof.
  intros s _. repeat split; simpl; auto.
  exists []. split; [symmetry; apply app_nil_r | constructor].
Qed.

Lemma extends_sent r s : P (Post r) -> extends P s (sent r s).
Proof.
  intros HP. repeat split; simpl; auto. exists [Post r].
  split; [reflexivity|]. constructor; [exact HP | constructor].
Qed.

Lemma preserves_post_query W :
  preserves P Inv (post W QueryCall query variables 30).
Proof.
  intros s HI. rewrite post_state.
  destruct (nth_error (api_keys s) (current_key_index s)) as [key|];
    [|apply extends_refl].
  apply extends_sent. apply (P_query s key HI).
Qed.

Lemma preserves_post W site q v timeout :
  (forall r, req_site r = site -> P (Post r)) ->
  preserves P Inv (post W site q v timeout).
Proof.
  intros HP s _. rewrite post_state.
  destruct (nth_error (api_keys s) (current_key_index s)) as [key|];
    [|apply extends_refl].
  apply extends_sent, HP. reflexivity.
Qed.

Ltac preserves_tac :=
  repeat first
    [ apply preserves_ret
    | apply preserves_lift
    | apply preserves_sleep
    | apply preserves_sleep_incremented
    | apply preserves_rotate_key
    | apply preserves_rate_limit_wait
    | apply preserves_randint
    | apply preserves_bind; [|intros ?]
    | match goal with
      | |- preserves _ _ (if ?b then _ else _) => destruct b
      | |- preserves _ _ (match ?x with _ => _ end) => destruct x
      end ].

Lemma preserves_handle_response W rc response :
  preserves P Inv (handle_response W rc response).
Proof. unfold handle_response, handle_200. preserves_tac. Qed.

Lemma preserves_send_request W rc :
  preserves P Inv (send_request W query variables rc).
Proof.
  unfold send_request. apply preserves_bind.
  - apply preserves_post_query.
  - intros response. apply preserves_handle_response.
Qed.

Lemma preserves_check_rate_limit W :
  (forall r, req_site r = RateLimitCall -> P (Post r)) -> preserves P Inv (check_rate_limit W).
Proof.
  intros HP s HI. unfold check_rate_limit.
  assert (H : preserves P Inv (check_rate_limit_try W)).
  { unfold check_rate_limit_try. apply preserves_bind.
    - apply preserves_post, HP.
    - intros response. preserves_tac. }
  specialize (H s HI).
  destruct (check_rate_limit_try W s) as [[[rl|]|e] s1]; exact H.
Qed.

(** The part of the quota check that follows the snapshot. *)
Lemma preserves_after_snapshot rc rate_limit :
  preserves P Inv
    (remaining <- lift (Py.get rate_limit "remaining" (JInt 0)) ;;
     low <- lift (Py.lt_int remaining RATE_LIMIT_THRESHOLD) ;;
     if low : bool then
       rotated <- rotate_key ;;
       if negb rotated then
         rate_limit_wait (quota_wait rc) ;;
         ret (Some (Continue (rc + 1)))
       else ret None
     else ret None).
Proof. preserves_tac. Qed.

Lemma preserves_rate_limit_gate W rc :
  rc <> 0 \/ (forall r, req_site r = RateLimitCall -> P (Post r)) -> preserves P Inv (rate_limit_gate W rc).
Proof.
  intros H. unfold rate_limit_gate.
  destruct (Z.eqb_spec rc 0) as [->|Hne]; [|apply preserves_ret].
  destruct H as [H|H]; [congruence|].
  apply preserves_bind; [apply preserves_check_rate_limit, H|].
  intros rate_limit. apply preserves_after_snapshot.
Qed.

Lemma preserves_try_body W rc :
  rc <> 0 \/ (forall r, req_site r = RateLimitCall -> P (Post r)) -> preserves P Inv (try_body W query variables rc).
Proof.
  intros H. unfold try_body. apply preserves_bind.
  - apply preserves_rate_limit_gate, H.
  - intros [r|]; [apply preserves_ret | apply preserves_send_request].
Qed.

(** The three handlers only sleep. *)
Lemma extends_handlers {A} (run : result A * state) (k : A -> iter_result)
    (rc : Z) s :
  extends P s (snd run) ->
  extends P s
    (snd (match run with
          | (Ok r, s') => (k r, s')
          | (Raise Timeout, s') =>
              let wait_time := network_wait rc in
              (Continue (rc + 1), log_event (Sleep (inject_Z wait_time)) s')
          | (Raise ConnectionError, s') =>
              let wait_time := network_wait rc in
              (Continue (rc + 1), log_event (Sleep (inject_Z wait_time)) s')
          | (Raise _, s') => on_exception rc s'
          end)).
Proof.
  destruct run as [[r|e] s']; simpl; intros H; [exact H|].
  destruct e; simpl;
    (eapply extends_trans;
     [exact H | first [apply extends_log, P_sleep | apply extends_on_exception]]).
Qed.

Lemma extends_execute_attempt W rc s :
  Inv s ->
  rc <> 0 \/ (forall r, req_site r = RateLimitCall -> P (Post r)) ->
  extends P s (snd (execute_attempt W query variables rc s)).
Proof.
  intros HI H. unfold execute_attempt.
  apply (extends_handlers (try_body W query variables rc s) (fun r => r)).
  apply preserves_try_body; assumption.
Qed.

Lemma extends_execute_loop W max_retries fuel :
  forall rc s,
    Inv s ->
    1 <= rc \/ (forall r, req_site r = RateLimitCall -> P (Post r)) ->
    extends P s (snd (execute_loop W query variables max_retries fuel rc s)).
Proof.
  induction fuel as [|fuel IH]; intros rc s HI H; cbn [execute_loop];
    destruct (rc <? max_retries); try apply extends_refl.
  assert (H' : rc <> 0 \/ (forall r, req_site r = RateLimitCall -> P (Post r))) by (destruct H; [left; lia | auto]).
  pose proof (extends_execute_attempt W rc s HI H') as Ha.
  pose proof (execute_attempt_advances W query variables rc s) as Hadv.
  destruct (execute_attempt W query variables rc s) as [[v|rc'|e] s']; simpl in *.
  - exact Ha.
  - subst rc'. eapply extends_trans; [exact Ha|]. apply IH.
    + exact (extends_inv s s' Ha HI).
    + destruct H; [left; lia | auto].
  - exact Ha.
Qed.

End Frame.

(** ** The quota snapshot *)

Lemma quiet_sleep q : quiet (Sleep q).
Proof. reflexivity. Qed.

Lemma any_state_heap s s' : heap s' = heap s -> any_state s -> any_state s'.
Proof. intros _ _. exact I. Qed.

Lemma quiet_query_request query variables s key :
  any_state s -> quiet (Post (query_request query variables key s)).
Proof. intros _. reflexivity. Qed.

Lemma bind_assoc {A B C} (m : M A) (f : A -> M B) (g : B -> M C) s :
  bind (bind m f) g s = bind m (fun a => bind (f a) g) s.
Proof. unfold bind. destruct (m s) as [[a|e] s1]; reflexivity. Qed.

Lemma stateless_ret {A} (a : A) : stateless (ret a).
Proof. intros s. reflexivity. Qed.

Lemma stateless_lift {A} (r : result A) : stateless (lift r).
Proof. intros s. reflexivity. Qed.

Lemma stateless_bind {A B} (m : M A) (f : A -> M B) :
  stateless m -> (forall a, stateless (f a)) -> stateless (bind m f).
Proof.
  intros Hm Hf s. unfold bind. specialize (Hm s).
  destruct (m s) as [[a|e] s1]; simpl in *; subst s1; [apply Hf | reflexivity].
Qed.

Ltac stateless_tac :=
  repeat first
    [ apply stateless_ret
    | apply stateless_lift
    | apply stateless_bind; [|intros ?]
    | match goal with
      | |- stateless (if ?b then _ else _) => destruct b
      | |- stateless (match ?x with _ => _ end) => destruct x
      end ].

(** [check_rate_limit] sends one request when a key is active, and does
    nothing else to the client. *)
Lemma check_rate_limit_state W s :
  exists rate_limit,
    check_rate_limit W s =
      (Ok rate_limit,
       match nth_error (api_keys s) (current_key_index s) with
       | Some key => sent (snapshot_request key) s
       | None => s
       end).
Proof.
  assert (Hs : snd (check_rate_limit_try W s) =
               snd (post W RateLimitCall rate_limit_query None 10 s)).
  { unfold check_rate_limit_try.
    match goal with
    | |- snd (bind ?m ?f s) = _ =>
        assert (Hf : forall r, stateless (f r))
          by (intros r; cbv beta; stateless_tac)
    end.
    unfold bind at 1.
    destruct (post W RateLimitCall rate_limit_query None 10 s) as [[response|e] s1];
      [apply Hf | reflexivity]. }
  rewrite post_state in Hs. unfold check_rate_limit.
  destruct (check_rate_limit_try W s) as [[[rate_limit|]|e] s1];
    simpl in Hs; subst s1; eexists; reflexivity.
Qed.

Lemma first_attempt_trace W query variables s :
  exists tr,
    trace (snd (execute_attempt W query variables 0 s)) = trace s ++ tr /\
    Forall quiet (tl tr).
Proof.
  destruct (check_rate_limit_state W s) as (rate_limit & Hc).
  set (s1 := match nth_error (api_keys s) (current_key_index s) with
             | Some key => sent (snapshot_request key) s
             | None => s
             end) in Hc.
  assert (H1 : exists tr0, trace s1 = trace s ++ tr0 /\ Forall quiet (tl tr0)).
  { subst s1. destruct (nth_error _ _) as [key|].
    - exists [Post (snapshot_request key)]. split; [reflexivity | constructor].
    - exists []. split; [symmetry; apply app_nil_r | constructor]. }
  assert (H2 : extends quiet s1 (snd (execute_attempt W query variables 0 s))).
  { unfold execute_attempt, try_body, rate_limit_gate. cbn [Z.eqb].
    rewrite bind_assoc. rewrite (bind_ok _ _ _ _ _ Hc).
    match goal with
    | |- context [bind ?m ?f s1] =>
        assert (Hp : preserves quiet any_state (bind m f))
    end.
    { apply (preserves_bind quiet any_state any_state_heap).
      - apply preserves_after_snapshot; [exact quiet_sleep | exact any_state_heap].
      - intros [r|]; [apply preserves_ret|].
        apply preserves_send_request;
          [exact quiet_sleep | exact any_state_heap | apply quiet_query_request]. }
    specialize (Hp s1 I).
    match goal with
    | |- context [bind ?m ?f s1] => destruct (bind m f s1) as [[r|e] s']
    end; simpl in *; [exact Hp|].
    destruct e; simpl;
      (eapply extends_trans;
       [exact Hp
       |first [apply extends_log, quiet_sleep
              |apply (extends_on_exception quiet quiet_sleep)]]). }
  destruct H1 as (tr0 & Ht0 & Hq0).
  destruct H2 as (_ & _ & _ & tr & Ht & Hq).
  exists (tr0 ++ tr). split.
  - rewrite Ht, Ht0. symmetry. apply app_assoc.
  - destruct tr0 as [|ev tr0]; simpl in *.
    + destruct tr; simpl; [constructor | inversion Hq; assumption].
    + apply Forall_app. split; assumption.
Qed.

Lemma Forall_tl_app {A} (Q : A -> Prop) (l1 l2 : list A) :
  Forall Q (tl l1) -> Forall Q l2 -> Forall Q (tl (l1 ++ l2)).
Proof.
  intros H1 H2. destruct l1 as [|x l1]; simpl in *.
  - destruct l2; simpl; [constructor | inversion H2; assumption].
  - apply Forall_app. split; assumption.
Qed.

(** Once the query of a pass is out, the rest of the pass adds no
    snapshot. *)
Lemma attempt_after_request W query variables rc s s1 key :
  rate_limit_gate W rc s = (Ok None, s1) ->
  nth_error (api_keys s1) (current_key_index s1) = Some key ->
  extends quiet (sent (query_request query variables key s1) s1)
    (snd (execute_attempt W query variables rc s)).
Proof.
  intros Hg Hk. unfold execute_attempt, try_body.
  rewrite (bind_ok _ _ _ _ _ Hg). unfold send_request.
  pose proof (preserves_handle_response quiet any_state quiet_sleep
                any_state_heap W rc) as Hh.
  unfold bind at 1. unfold post, current_key, bind at 1. rewrite Hk.
  fold (query_request query variables key s1).
  fold (sent (query_request query variables key s1) s1).
  destruct (net W (posts s1)) as [code body|e].
  - specialize (Hh (code, body) (sent (query_request query variables key s1) s1) I).
    destruct (handle_response W rc (code, body) _) as [[r|e] s']; simpl in *;
      [exact Hh|].
    destruct e; simpl;
      (eapply extends_trans;
       [exact Hh
       |first [apply extends_log, quiet_sleep
              |apply (extends_on_exception quiet quiet_sleep)]]).
  - destruct e; simpl;
      first [apply extends_log, quiet_sleep
            |apply (extends_on_exception quiet quiet_sleep)].
Qed.

Lemma loop_after_request W query variables max_retries fuel rc s s1 key :
  0 <= rc < max_retries ->
  rate_limit_gate W rc s = (Ok None, s1) ->
  nth_error (api_keys s1) (current_key_index s1) = Some key ->
  extends quiet (sent (query_request query variables key s1) s1)
    (snd (execute_loop W query variables max_retries (S fuel) rc s)).
Proof.
  intros Hrc Hg Hk. cbn [execute_loop].
  rewrite (proj2 (Z.ltb_lt _ _) (proj2 Hrc)).
  pose proof (attempt_after_request W query variables rc s s1 key Hg Hk) as Ha.
  pose proof (execute_attempt_advances W query variables rc s) as Hadv.
  destruct (execute_attempt W query variables rc s) as [[v|rc'|e] s']; simpl in *;
    [exact Ha| |exact Ha].
  subst rc'. eapply extends_trans; [exact Ha|].
  apply (extends_execute_loop quiet any_state query variables quiet_sleep
           any_state_heap (quiet_query_request query variables));
    [exact I | left; lia].
Qed.

Lemma check_rate_limit_quota W s key quota remaining limit :
  nth_error (api_keys s) (current_key_index s) = Some key ->
  net W (posts s) =
    Response 200 (Some (JObj [("data"%string,
                               JObj [("rateLimit"%string, JObj quota)])])) ->
  Py.lookup_field "remaining" quota = Some remaining ->
  Py.lookup_field "limit" quota = Some limit ->
  check_rate_limit W s = (Ok (JObj quota), sent (snapshot_request key) s).
Proof.
  intros Hk Hn Hr Hl.
  unfold check_rate_limit, check_rate_limit_try, post, current_key, bind, lift, ret.
  rewrite Hk, Hn. simpl. rewrite Hr, Hl. reflexivity.
Qed.

(** The quota check of the first pass, with two keys and a low quota:
    snapshot, rotation, and on to the query. *)
Lemma rate_limit_gate_rotates W s A B quota r limit :
  api_keys s = [A; B] ->
  current_key_index s = 0%nat ->
  net W (posts s) =
    Response 200 (Some (JObj [("data"%string,
                               JObj [("rateLimit"%string, JObj quota)])])) ->
  Py.lookup_field "remaining" quota = Some (JInt r) ->
  Py.lookup_field "limit" quota = Some limit ->
  r < RATE_LIMIT_THRESHOLD ->
  rate_limit_gate W 0 s =
    (Ok None,
     log_event (Sleep (inject_Z 1)) (set_index 1 (sent (snapshot_request A) s))).
Proof.
  intros Hkeys Hidx Hn Hr Hl Hlow.
  assert (Hk : nth_error (api_keys s) (current_key_index s) = Some A)
    by (rewrite Hkeys, Hidx; reflexivity).
  unfold rate_limit_gate. cbn [Z.eqb].
  rewrite (bind_ok _ _ _ _ _ (check_rate_limit_quota W s A quota _ _ Hk Hn Hr Hl)).
  unfold bind, lift, ret, rotate_key. cbn [Py.get]. rewrite Hr.
  unfold Py.lt_int. rewrite (proj2 (Z.ltb_lt _ _) Hlow).
  cbn [api_keys sent count_post log_event current_key_index]. rewrite Hkeys, Hidx.
  reflexivity.
Qed.

(** C5: the quota snapshot is taken on the first pass of a call only.  A
    pass with a retry count other than 0 sends no snapshot; in a whole
    call no event after the first one is a snapshot; and with two keys and
    a first snapshot below the threshold the call sends the snapshot with
    the first key, rotates (the one second pause of [rotate_key]) and
    sends the query with the second key, with no snapshot in between or
    afterwards. *)
Theorem snapshot_on_first_attempt_only W query variables max_retries s :
  (forall rc t,
     rc <> 0 ->
     extends quiet t (snd (execute_attempt W query variables rc t))) /\
  (exists tr,
     trace (snd (execute_query W query variables max_retries s)) = trace s ++ tr /\
     Forall quiet (tl tr)) /\
  (forall A B quota r limit,
     api_keys s = [A; B] ->
     current_key_index s = 0%nat ->
     1 <= max_retries ->
     net W (posts s) =
       Response 200 (Some (JObj [("data"%string,
                                  JObj [("rateLimit"%string, JObj quota)])])) ->
     Py.lookup_field "remaining" quota = Some (JInt r) ->
     Py.lookup_field "limit" quota = Some limit ->
     r < RATE_LIMIT_THRESHOLD ->
     exists tr,
       trace (snd (execute_query W query variables max_retries s)) =
         trace s ++ [Post (snapshot_request A); Sleep (inject_Z 1);
                     Post (query_request query variables B s)] ++ tr /\
       Forall quiet tr).
Proof.
  split; [|split].
  - intros rc t Hrc.
    apply (extends_execute_attempt quiet any_state query variables quiet_sleep
             any_state_heap (quiet_query_request query variables));
      [exact I | left; exact Hrc].
  - unfold execute_query.
    destruct (Z.to_nat max_retries) as [|fuel]; cbn [execute_loop].
    { exists []. split; [|constructor].
      destruct (0 <? max_retries); symmetry; apply app_nil_r. }
    destruct (0 <? max_retries);
      [|exists []; split; [symmetry; apply app_nil_r | constructor]].
    destruct (first_attempt_trace W query variables s) as (tr1 & Ht1 & Hq1).
    pose proof (execute_attempt_advances W query variables 0 s) as Hadv.
    destruct (execute_attempt W query variables 0 s) as [[v|rc'|e] s']; simpl in *.
    + exists tr1. split; assumption.
    + subst rc'. change (0 + 1) with 1.
      destruct (extends_execute_loop quiet any_state query variables quiet_sleep
                  any_state_heap (quiet_query_request query variables) W
                  max_retries fuel 1 s' I (or_introl (Z.le_refl 1)))
        as (_ & _ & _ & tr2 & Ht2 & Hq2).
      exists (tr1 ++ tr2). split.
      * rewrite Ht2, Ht1. symmetry. apply app_assoc.
      * apply Forall_tl_app; assumption.
    + exists tr1. split; assumption.
  - intros A B quota r limit Hkeys Hidx Hmax Hn Hr Hl Hlow.
    pose proof (rate_limit_gate_rotates W s A B quota r limit
                  Hkeys Hidx Hn Hr Hl Hlow) as Hg.
    set (s1 := log_event (Sleep (inject_Z 1))
                 (set_index 1 (sent (snapshot_request A) s))) in Hg.
    assert (Hk : nth_error (api_keys s1) (current_key_index s1) = Some B)
      by (simpl; rewrite Hkeys; reflexivity).
    unfold execute_query.
    destruct (Z.to_nat max_retries) as [|fuel] eqn:Hfuel; [lia|].
    destruct (loop_after_request W query variables max_retries fuel 0 s s1 B
                ltac:(lia) Hg Hk) as (_ & _ & _ & tr & Ht & Hq).
    exists tr. split; [|exact Hq].
    rewrite Ht. simpl. rewrite <- !app_assoc. reflexivity.
Qed.

(** ** What the executor returns *)

Lemma bind_ok_inv {A B} (m : M A) (f : A -> M B) s b s' :
  bind m f s = (Ok b, s') ->
  exists a s1, m s = (Ok a, s1) /\ f a s1 = (Ok b, s').
Proof.
  unfold bind. destruct (m s) as [[a|e] s1]; [eauto | discriminate].
Qed.

Lemma produces_lift {A} (r : result A) : produces (fun a => r = Ok a) (lift r).
Proof. intros s. simpl. destruct r; auto. Qed.

Lemma handle_response_return W rc response :
  produces (body_or_none response) (handle_response W rc response).
Proof.
  unfold handle_response.
  destruct (Z.eqb_spec (fst response) 200) as [H200|_].
  - unfold handle_200. eapply produces_bind; [apply produces_lift|].
    intros data Hdata.
    assert (Hbody : snd response = Some data).
    { destruct (snd response); simpl in Hdata; congruence. }
    produces_tac.
  - produces_tac.
Qed.

Lemma any_event_query query variables s key :
  any_state s -> any_event (Post (query_request query variables key s)).
Proof. intros _. exact I. Qed.

Lemma any_event_sleep q : any_event (Sleep q).
Proof. exact I. Qed.

Lemma any_event_post r : req_site r = RateLimitCall -> any_event (Post r).
Proof. intros _. exact I. Qed.

Lemma post_ok_inv W site query variables timeout s response s' :
  post W site query variables timeout s = (Ok response, s') ->
  net W (posts s) = Response (fst response) (snd response) /\
  posts s' = S (posts s).
Proof.
  unfold post, current_key, bind.
  destruct (nth_error (api_keys s) (current_key_index s)); [|discriminate].
  destruct (net W (posts s)) as [code body|e]; [|discriminate].
  intros [= <- <-]. split; reflexivity.
Qed.

Lemma on_exception_no_return rc s v s' :
  on_exception rc s = (Return v, s') -> False.
Proof.
  destruct (on_exception_cases rc s) as [[_ ->]|[_ ->]]; discriminate.
Qed.

Lemma execute_attempt_return W query variables rc s v s' :
  execute_attempt W query variables rc s = (Return v, s') ->
  v <> JNull ->
  exists i, (posts s <= i < posts s')%nat /\ net W i = Response 200 (Some v).
Proof.
  unfold execute_attempt. intros Ha Hv.
  destruct (try_body W query variables rc s) as [[r|e] s''] eqn:Ht;
    [|destruct e; try discriminate Ha;
      exfalso; exact (on_exception_no_return _ _ _ _ Ha)].
  injection Ha as -> ->. unfold try_body in Ht.
  apply bind_ok_inv in Ht. destruct Ht as (gate & s1 & Hg & Hk).
  pose proof (rate_limit_gate_advances W rc s) as Hadv. rewrite Hg in Hadv.
  pose proof (preserves_rate_limit_gate any_event any_state any_event_sleep
                any_state_heap W rc (or_intror any_event_post) s I) as Hext.
  rewrite Hg in Hext. destruct Hext as (_ & _ & Hp1 & _). simpl in *.
  destruct gate as [r|]; [subst r; discriminate|].
  unfold send_request in Hk. apply bind_ok_inv in Hk.
  destruct Hk as (response & s2 & Hpost & Hh).
  apply post_ok_inv in Hpost. destruct Hpost as [Hnet Hp2].
  pose proof (handle_response_return W rc response s2) as Hr.
  pose proof (preserves_handle_response any_event any_state any_event_sleep
                any_state_heap W rc response s2 I) as (_ & _ & Hp3 & _).
  rewrite Hh in Hr, Hp3. simpl in *.
  destruct Hr as [Hr|[H200 Hbody]]; [contradiction|].
  exists (posts s1). split; [lia|]. rewrite Hnet, H200, Hbody. reflexivity.
Qed.

Lemma execute_loop_result W query variables max_retries fuel :
  forall rc s v s',
    execute_loop W query variables max_retries fuel rc s = (Some (Ok v), s') ->
    v <> JNull ->
    exists i, (posts s <= i < posts s')%nat /\ net W i = Response 200 (Some v).
Proof.
  induction fuel as [|fuel IH]; intros rc s v s'; cbn [execute_loop];
    destruct (rc <? max_retries); try congruence.
  pose proof (extends_execute_attempt any_event any_state query variables
                any_event_sleep any_state_heap (any_event_query query variables)
                W rc s I (or_intror any_event_post))
    as (_ & _ & Hp & _).
  destruct (execute_attempt W query variables rc s) as [[r|rc'|e] s1] eqn:Ha;
    simpl in Hp.
  - intros [= <- <-] Hv. eapply execute_attempt_return; eauto.
  - intros Hl Hv. destruct (IH _ _ _ _ Hl Hv) as (i & Hi & Hn).
    exists i. split; [lia | exact Hn].
  - discriminate.
Qed.

(** ** Exceptions that leave the executor *)

Lemma sleep_incremented_late rc :
  produces (escapes_late rc) (sleep_incremented rc).
Proof.
  intros s.
  destruct (sleep_incremented_cases rc s) as [[_ ->]|[H ->]]; simpl; auto.
Qed.

Lemma handle_response_late W rc response :
  produces (escapes_late rc) (handle_response W rc response).
Proof.
  unfold handle_response, handle_200.
  repeat first
    [ apply produces_ret; simpl; auto; fail
    | apply sleep_incremented_late
    | eapply produces_bind; [apply produces_any | intros ? _]
    | match goal with
      | |- produces _ (if ?b then _ else _) => destruct b
      | |- produces _ (match ?x with _ => _ end) => destruct x
      end ].
Qed.

Lemma try_body_late W query variables rc :
  produces (escapes_late rc) (try_body W query variables rc).
Proof.
  unfold try_body. eapply produces_bind; [apply rate_limit_gate_advances|].
  intros [r|] Hr.
  - apply produces_ret. rewrite Hr. exact I.
  - unfold send_request. eapply produces_bind; [apply produces_any|].
    intros response _. apply handle_response_late.
Qed.

Lemma execute_attempt_late W query variables rc s :
  escapes_late rc (fst (execute_attempt W query variables rc s)).
Proof.
  unfold execute_attempt.
  pose proof (try_body_late W query variables rc s) as H.
  destruct (try_body W query variables rc s) as [[r|e] s']; simpl in *.
  - exact H.
  - destruct e; try exact I;
      destruct (on_exception_cases rc s') as [[_ ->]|[Hrc ->]]; simpl; auto.
Qed.

(** An exception leaves the retry loop only when [max_retries] is 34 or
    more, and it is the [OverflowError] of a sleep. *)
Lemma execute_loop_late W query variables max_retries fuel :
  forall rc s e,
    fst (execute_loop W query variables max_retries fuel rc s) = Some (Raise e) ->
    e = OverflowError /\ 34 <= max_retries.
Proof.
  induction fuel as [|fuel IH]; intros rc s e; cbn [execute_loop];
    destruct (Z.ltb_spec rc max_retries) as [Hlt|Hge]; try (simpl; congruence).
  pose proof (execute_attempt_late W query variables rc s) as Ha.
  destruct (execute_attempt W query variables rc s) as [[v|rc'|e'] s'];
    simpl in *; try congruence.
  - apply IH.
  - intros [= <-]. destruct Ha as [-> Hrc]. split; [reflexivity | lia].
Qed.

(** A call of [execute_query]: it comes to an end, it keeps the keys and
    the objects of the heap, it returns when [max_retries <= 33], and what
    it returns is [None] or the body of a response with status 200 that
    arrived during the call. *)
Lemma execute_query_spec W query variables max_retries s :
  exists r s',
    execute_query W query variables max_retries s = (Some r, s') /\
    extends any_event s s' /\
    (max_retries <= 33 -> exists v, r = Ok v) /\
    (forall v, r = Ok v -> v <> JNull ->
     exists i, (posts s <= i < posts s')%nat /\ net W i = Response 200 (Some v)).
Proof.
  destruct (execute_query_returns W query variables max_retries s) as (r & Hr).
  destruct (execute_query W query variables max_retries s) as [o s'] eqn:He.
  simpl in Hr. subst o. exists r, s'. split; [reflexivity|]. split; [|split].
  - pose proof (extends_execute_loop any_event any_state query variables
                  any_event_sleep any_state_heap
                  (any_event_query query variables) W max_retries
                  (Z.to_nat max_retries) 0 s I (or_intror any_event_post)) as H.
    unfold execute_query in He. rewrite He in H. exact H.
  - intros Hmax. destruct r as [v|e]; [eauto|].
    pose proof (execute_loop_late W query variables max_retries
                  (Z.to_nat max_retries) 0 s e) as H.
    unfold execute_query in He. rewrite He in H.
    destruct (H eq_refl) as [_ H34]. lia.
  - intros v -> Hn. eapply execute_loop_result; eauto.
Qed.

(** ** The paginator *)

Lemma fetched_mono W pages : forall lo hi hi',
  fetched_in_order W lo hi pages -> (hi <= hi')%nat ->
  fetched_in_order W lo hi' pages.
Proof.
  induction pages as [|page rest IH]; simpl; intros lo hi hi' H Hle; [lia|].
  destruct H as (i & Hi & Hn & Hu & Hr). exists i.
  repeat split; try lia; auto. eapply IH; eauto.
Qed.

Lemma fetched_snoc W pages : forall lo hi hi' i page,
  fetched_in_order W lo hi pages ->
  (hi <= i < hi')%nat ->
  net W i = Response 200 (Some page) ->
  unusable page = Ok false ->
  fetched_in_order W lo hi' (pages ++ [page]).
Proof.
  induction pages as [|p rest IH]; simpl; intros lo hi hi' i page H Hi Hn Hu.
  - exists i. repeat split; auto; lia.
  - destruct H as (j & Hj & Hnj & Huj & Hr). exists j.
    repeat split; try lia; auto. eapply IH; eauto.
Qed.

Lemma accept_page_ok page_info_path p r p' :
  accept_page page_info_path p r = Ok p' ->
  all_results p' = all_results p ++ [r] /\
  page_count p' = page_count p + 1 /\
  consecutive_failures p' = 0.
Proof.
  unfold accept_page.
  destruct (Py.getitem r "data") as [d|]; [|discriminate].
  destruct (navigate page_info_path d) as [walk|]; [|discriminate].
  destruct (read_page_info (cursor p) walk) as [[h c]|]; [|discriminate].
  intros [= <-]. simpl. auto.
Qed.

Lemma update_cursor_posts variables p s :
  posts (update_cursor variables p s) = posts s.
Proof. unfold update_cursor. destruct (Py.truthy (cursor p)); reflexivity. Qed.

Lemma paginate_pass_spec W query_template variables page_info_path p s :
  let run := paginate_pass W query_template variables page_info_path p s in
  (posts s <= posts (snd run))%nat /\
  api_keys (snd run) = api_keys s /\
  heap (snd run) = heap (update_cursor variables p s) /\
  pass_outcome W p s (fst run) (snd run).
Proof.
  unfold paginate_pass.
  destruct (execute_query_spec W query_template (Some variables) 5
              (update_cursor variables p s))
    as (r & s1 & He & (Hkeys & Hheap & Hposts & _) & Hok & Hbody).
  destruct (Hok ltac:(lia)) as (v & ->). specialize (Hbody v eq_refl).
  rewrite He. rewrite update_cursor_posts in *.
  assert (Hk : api_keys s1 = api_keys s).
  { rewrite Hkeys. unfold update_cursor. destruct (Py.truthy (cursor p)); reflexivity. }
  destruct (unusable v) as [[|]|e] eqn:Hu.
  - unfold reject_page. cbn [count_failure consecutive_failures].
    destruct (Z.geb_spec (consecutive_failures p + 1) max_consecutive_failures);
      simpl; repeat split; auto; try lia.
    left. repeat split; auto.
  - assert (Hv : v <> JNull) by (intros ->; discriminate).
    destruct (Hbody Hv) as (i & Hi & Hn).
    destruct (accept_page page_info_path p v) as [p'|e] eqn:Ha; simpl;
      repeat split; auto.
    destruct (accept_page_ok _ _ _ _ Ha) as (Hr & Hc & Hf).
    right. exists v, i. repeat split; auto; lia.
  - simpl. repeat split; auto.
Qed.

Lemma loop_condition_bounded max_pages p :
  loop_condition (Some max_pages) p = true -> page_count p < max_pages.
Proof.
  unfold loop_condition. intros H. apply andb_true_iff in H.
  destruct H as [_ H]. apply Z.ltb_lt, H.
Qed.

Lemma paginate_loop_bounded W query_template variables page_info_path max_pages lo :
  0 <= max_pages ->
  forall fuel p s out s',
    0 <= consecutive_failures p < max_consecutive_failures ->
    page_count p = Z.of_nat (length (all_results p)) ->
    page_count p <= max_pages ->
    fetched_in_order W lo (posts s) (all_results p) ->
    (3 * Z.to_nat (max_pages - page_count p)
       - Z.to_nat (consecutive_failures p) <= fuel)%nat ->
    paginate_loop W query_template variables page_info_path (Some max_pages)
      fuel p s = (out, s') ->
    exists r,
      out = Some r /\
      forall pages,
        r = Ok pages ->
        Z.of_nat (length pages) <= max_pages /\
        fetched_in_order W lo (posts s') pages.
Proof.
  intros Hmax. unfold max_consecutive_failures.
  induction fuel as [|fuel IH]; intros p s out s' Hcf Hlen Hpc Hf Hfuel;
    cbn [paginate_loop];
    destruct (loop_condition (Some max_pages) p) eqn:Hc;
    try (intros [= <- <-]; eexists; split; [reflexivity|];
         intros pages [= <-]; split; [lia | exact Hf]).
  - apply loop_condition_bounded in Hc. lia.
  - apply loop_condition_bounded in Hc.
    pose proof (paginate_pass_spec W query_template variables page_info_path p s)
      as (Hposts & _ & _ & Hout).
    destruct (paginate_pass W query_template variables page_info_path p s)
      as [[[[|p']|e]|] s1]; simpl in Hposts, Hout.
    + intros [= <- <-]. eexists. split; [reflexivity|].
      intros pages [= <-]. split; [lia|]. eapply fetched_mono; eauto.
    + unfold max_consecutive_failures in Hout.
      destruct Hout as [(Hr & Hp & _ & _ & Hcf' & Hlt)
                       |(r & i & Hr & Hp & Hcf' & Hi & Hn & Hu)].
      * apply IH; try rewrite Hr; try rewrite Hp; try rewrite Hcf'; auto; try lia.
        eapply fetched_mono; eauto.
      * apply IH; try rewrite Hr; try rewrite Hp; try rewrite Hcf'; auto; try lia.
        -- rewrite length_app. simpl. lia.
        -- eapply fetched_snoc; eauto.
    + intros [= <- <-]. eexists. split; [reflexivity|]. intros pages [=].
    + contradiction.
Qed.

(** The list the loop returns is the list it started with, followed by
    the successful payloads among what its passes fetched. *)
Lemma paginate_loop_payloads W query_template variables page_info_path max_pages fuel :
  forall p s pages,
    fst (paginate_loop W query_template variables page_info_path max_pages fuel p s)
      = Some (Ok pages) ->
    pages = all_results p ++
            payloads (fetched W query_template variables page_info_path max_pages
                        fuel p s).
Proof.
  induction fuel as [|fuel IH]; intros p s pages; cbn [paginate_loop fetched];
    destruct (loop_condition max_pages p); simpl;
    try (intros [= <-]; symmetry; apply app_nil_r); try discriminate.
  pose proof (IH) as IH'. unfold paginate_pass in *.
  destruct (execute_query W query_template (Some variables) 5
              (update_cursor variables p s)) as [[[r|e]|] s1];
    simpl; try discriminate.
  unfold usable. destruct (unusable r) as [[|]|e] eqn:Hu; simpl; try discriminate.
  - unfold reject_page.
    destruct (consecutive_failures (count_failure p) >=? max_consecutive_failures);
      simpl.
    + intros [= <-]. symmetry. apply app_nil_r.
    + intros H. apply IH in H. exact H.
  - destruct (accept_page page_info_path p r) as [p'|e] eqn:Ha; simpl;
      try discriminate.
    intros H. apply IH in H. rewrite H.
    destruct (accept_page_ok _ _ _ _ Ha) as (-> & _). rewrite <- app_assoc.
    reflexivity.
Qed.

(** C7: with a finite [max_pages] the pagination comes to an end (within
    [3 * max_pages] passes), and a list it returns has at most [max_pages]
    elements.  They are the successful page payloads of the run, each
    appended when it was fetched: the list is made of the payloads that
    pass the test of line 224 among what the calls of [execute_query]
    gave, one for one and in the order of the calls, and they are bodies
    of responses with status 200 that arrived during the call, in the
    order in which they arrived. *)
Theorem paginate_query_bounded
    W query_template variables page_info_path max_pages fuel s :
  0 <= max_pages ->
  (3 * Z.to_nat max_pages <= fuel)%nat ->
  let run := paginate_query W query_template variables page_info_path
               (Some max_pages) fuel s in
  exists r,
    fst run = Some r /\
    forall pages,
      r = Ok pages ->
      Z.of_nat (length pages) <= max_pages /\
      fetched_in_order W (posts s) (posts (snd run)) pages /\
      pages = payloads (fetched W query_template variables page_info_path
                          (Some max_pages) fuel initial_pager s).
Proof.
  intros Hmax Hfuel run. unfold paginate_query in run.
  destruct (paginate_loop_bounded W query_template variables page_info_path
              max_pages (posts s) Hmax fuel initial_pager s (fst run) (snd run))
    as (r & Hr & Hpages);
    unfold max_consecutive_failures; simpl; try lia.
  { apply surjective_pairing. }
  exists r. split; [exact Hr|]. intros pages ->.
  destruct (Hpages pages eq_refl) as [Hlen Hf].
  split; [exact Hlen|]. split; [exact Hf|].
  exact (paginate_loop_payloads W query_template variables page_info_path
           (Some max_pages) fuel initial_pager s pages Hr).
Qed.

(** A pass of the loop whose fetch gives nothing usable. *)
Lemma failed_pass W query_template variables page_info_path max_pages fuel p s r s1 :
  loop_condition max_pages p = true ->
  execute_query W query_template (Some variables) 5
    (update_cursor variables p s) = (Some (Ok r), s1) ->
  unusable r = Ok true ->
  paginate_loop W query_template variables page_info_path max_pages (S fuel) p s =
    if consecutive_failures p + 1 >=? max_consecutive_failures
    then (Some (Ok (all_results p)), s1)
    else paginate_loop W query_template variables page_info_path max_pages fuel
           (count_failure p)
           (log_event (Sleep (inject_Z (2 ^ (consecutive_failures p + 1)))) s1).
Proof.
  intros Hc He Hu. cbn [paginate_loop]. rewrite Hc.
  unfold paginate_pass. rewrite He, Hu. unfold reject_page.
  cbn [count_failure consecutive_failures].
  destruct (consecutive_failures p + 1 >=? max_consecutive_failures); reflexivity.
Qed.

(** C8: from a pass that starts with no failure counted, three fetches in
    a row that give nothing usable (for the same cursor, with waits of 2
    and 4 seconds in between) end the pagination: it returns the pages it
    had, with no exception, right after the third fetch.  A fetch that
    gives a usable page puts the count of failures back to 0. *)
Theorem three_failures_stop_pagination
    W query_template variables page_info_path max_pages fuel p s
    r1 s1 r2 s2 r3 s3 :
  loop_condition max_pages p = true ->
  consecutive_failures p = 0 ->
  execute_query W query_template (Some variables) 5
    (update_cursor variables p s) = (Some (Ok r1), s1) ->
  unusable r1 = Ok true ->
  execute_query W query_template (Some variables) 5
    (update_cursor variables p (log_event (Sleep (inject_Z 2)) s1)) = (Some (Ok r2), s2) ->
  unusable r2 = Ok true ->
  execute_query W query_template (Some variables) 5
    (update_cursor variables p (log_event (Sleep (inject_Z 4)) s2)) = (Some (Ok r3), s3) ->
  unusable r3 = Ok true ->
  paginate_loop W query_template variables page_info_path max_pages
    (3 + fuel) p s = (Some (Ok (all_results p)), s3) /\
  (forall p0 t r t0 p' t',
     execute_query W query_template (Some variables) 5
       (update_cursor variables p0 t) = (Some (Ok r), t0) ->
     unusable r = Ok false ->
     paginate_pass W query_template variables page_info_path p0 t
       = (Some (Ok (Next p')), t') ->
     consecutive_failures p' = 0 /\ all_results p' = all_results p0 ++ [r]).
Proof.
  intros Hc Hcf He1 Hu1 He2 Hu2 He3 Hu3. split.
  - change (3 + fuel)%nat with (S (S (S fuel))).
    rewrite (failed_pass _ _ _ _ _ _ _ _ _ _ Hc He1 Hu1), Hcf.
    change (0 + 1 >=? max_consecutive_failures) with false.
    change (2 ^ (0 + 1)) with 2. cbv iota.
    rewrite (failed_pass _ _ _ _ _ _ (count_failure p) _ _ _ Hc He2 Hu2).
    cbn [count_failure consecutive_failures]. rewrite Hcf.
    change (0 + 1 + 1 >=? max_consecutive_failures) with false.
    change (2 ^ (0 + 1 + 1)) with 4. cbv iota.
    rewrite (failed_pass _ _ _ _ _ _ (count_failure (count_failure p)) _ _ _
               Hc He3 Hu3).
    cbn [count_failure consecutive_failures all_results]. rewrite Hcf.
    reflexivity.
  - intros p0 t r t0 p' t' He Hu. unfold paginate_pass. rewrite He, Hu.
    destruct (accept_page page_info_path p0 r) as [p1|e] eqn:Ha; [|discriminate].
    intros [= <- _]. destruct (accept_page_ok _ _ _ _ Ha) as (Hr & _ & Hf).
    split; assumption.
Qed.

(** ** Exceptions *)

(** C9: [execute_query] hands back a value whatever the network does
    (with up to 33 retries, so that no wait is too long for [time.sleep];
    the paginator asks for 5), but [paginate_query] does not absorb
    everything: for the answer of the API to an unknown login,
    [{"data": {"user": null}, "errors": [...]}], the walk down
    [page_info_path = ['user', 'followers']] evaluates ['followers' in
    None] and the [TypeError] leaves [paginate_query]. *)
Theorem paginate_query_raises_on_null_user :
  (forall W query variables max_retries s,
     max_retries <= 33 ->
     exists v, fst (execute_query W query variables max_retries s) = Some (Ok v)) /\
  execute_query not_found_server "q" (Some 7%nat) 5
    (new_client ["A"; "B"]%string {[ 7%nat := caller_variables ]})
  = (Some (Ok user_not_found),
     sent (query_request "q" (Some 7%nat) "A"
             (new_client ["A"; "B"]%string {[ 7%nat := caller_variables ]}))
          (sent (snapshot_request "A")
             (new_client ["A"; "B"]%string {[ 7%nat := caller_variables ]}))) /\
  navigate ["user"; "followers"]%string (JObj [("user"%string, JNull)])
  = Raise TypeError /\
  fst (paginate_query not_found_server "q" 7 ["user"; "followers"]%string None 10
         (new_client ["A"; "B"]%string {[ 7%nat := caller_variables ]}))
  = Some (Raise TypeError).
Proof.
  split.
  { intros W query variables max_retries s Hmax.
    destruct (execute_query_spec W query variables max_retries s)
      as (r & s' & He & _ & Hok & _).
    destruct (Hok Hmax) as (v & ->). exists v. rewrite He. reflexivity. }
  split; [vm_compute; reflexivity|].
  split; [reflexivity|]. vm_compute. reflexivity.
Qed.

(** ** The caller's dictionary *)

Lemma deref_heap l s s' : heap s' = heap s -> deref l s' = deref l s.
Proof. unfold deref. intros ->. reflexivity. Qed.

Lemma payload_variables_heap variables s s' :
  heap s' = heap s -> payload_variables variables s' = payload_variables variables s.
Proof.
  intros H. unfold payload_variables. destruct variables as [l|]; [|reflexivity].
  rewrite (deref_heap l s s' H). reflexivity.
Qed.

Lemma deref_write_after variables c s :
  deref variables (write_after variables c s)
  = <["after"%string := c]> (deref variables s).
Proof. unfold write_after, deref at 1. simpl. rewrite lookup_insert_eq. reflexivity. Qed.

Lemma heap_write_after variables c s l :
  l <> variables -> heap (write_after variables c s) !! l = heap s !! l.
Proof. intros H. unfold write_after. simpl. apply lookup_insert_ne. congruence. Qed.

(** All queries of a call of [execute_query] carry the variables as they
    are when the call starts. *)
Lemma execute_query_carries W query variables max_retries s :
  extends (carries (payload_variables variables s)) s
    (snd (execute_query W query variables max_retries s)).
Proof.
  unfold execute_query.
  apply (extends_execute_loop
           (carries (payload_variables variables s))
           (fun t => payload_variables variables t = payload_variables variables s)
           query variables).
  - intros q. exact I.
  - intros t t' Hh Ht. rewrite (payload_variables_heap variables t t' Hh). exact Ht.
  - intros t key Ht _. exact Ht.
  - reflexivity.
  - right. intros r Hr Hq. congruence.
Qed.

Lemma paginate_pass_carries W query_template variables page_info_path p s :
  let s' := snd (paginate_pass W query_template variables page_info_path p s) in
  extends (carries (payload_variables (Some variables) s'))
    (update_cursor variables p s) s'.
Proof.
  intros s'.
  pose proof (paginate_pass_spec W query_template variables page_info_path p s)
    as (_ & _ & Hheap & _). fold s' in Hheap.
  rewrite (payload_variables_heap (Some variables) _ _ Hheap).
  subst s'. unfold paginate_pass.
  pose proof (execute_query_carries W query_template (Some variables) 5
                (update_cursor variables p s)) as He.
  destruct (execute_query W query_template (Some variables) 5
              (update_cursor variables p s)) as [[[r|e]|] s1]; simpl in He;
    [|exact He|exact He].
  destruct (unusable r) as [[|]|e]; [| |exact He].
  - unfold reject_page. destruct (_ >=? _); simpl; [exact He|].
    eapply extends_trans; [exact He | apply extends_log; exact I].
  - destruct (accept_page page_info_path p r); simpl; [|exact He].
    eapply extends_trans; [exact He | apply extends_log; exact I].
Qed.

(** The state in which the loop ends is the state after its last pass. *)
Lemma paginate_loop_last_pass W query_template variables page_info_path max_pages fuel :
  forall p s,
    let s' := snd (paginate_loop W query_template variables page_info_path
                     max_pages fuel p s) in
    s' = s \/
    exists p0 t, s' = snd (paginate_pass W query_template variables page_info_path p0 t).
Proof.
  induction fuel as [|fuel IH]; intros p s; cbn [paginate_loop];
    destruct (loop_condition max_pages p); simpl; auto.
  destruct (paginate_pass W query_template variables page_info_path p s)
    as [[[[|p']|e]|] s1] eqn:Hp; simpl;
    try (right; exists p, s; rewrite Hp; reflexivity).
  destruct (IH p' s1) as [H|H].
  - right. exists p, s. rewrite Hp. exact H.
  - right. exact H.
Qed.

Lemma paginate_loop_heap W query_template variables page_info_path max_pages fuel :
  forall p s,
    let s' := snd (paginate_loop W query_template variables page_info_path
                     max_pages fuel p s) in
    (forall l, l <> variables -> heap s' !! l = heap s !! l) /\
    (deref variables s' = deref variables s \/
     exists c, Py.truthy c = true /\
               deref variables s' = <["after"%string := c]> (deref variables s)).
Proof.
  induction fuel as [|fuel IH]; intros p s; cbn [paginate_loop];
    destruct (loop_condition max_pages p); simpl; auto.
  pose proof (paginate_pass_spec W query_template variables page_info_path p s)
    as (_ & _ & Hheap & _).
  assert (Hpass :
    (forall l, l <> variables ->
       heap (snd (paginate_pass W query_template variables page_info_path p s)) !! l
       = heap s !! l) /\
    (deref variables (snd (paginate_pass W query_template variables page_info_path p s))
       = deref variables s \/
     exists c, Py.truthy c = true /\
       deref variables (snd (paginate_pass W query_template variables page_info_path p s))
       = <["after"%string := c]> (deref variables s))).
  { rewrite (deref_heap variables _ _ Hheap). rewrite Hheap.
    unfold update_cursor. destruct (Py.truthy (cursor p)) eqn:Ht.
    - split; [intros l Hl; apply heap_write_after, Hl|].
      right. exists (cursor p). split; [exact Ht | apply deref_write_after].
    - split; auto. }
  clear Hheap.
  destruct (paginate_pass W query_template variables page_info_path p s)
    as [[[[|p']|e]|] s1]; simpl in *; try exact Hpass.
  destruct (IH p' s1) as (Ho & Hd). destruct Hpass as (Ho1 & Hd1). split.
  - intros l Hl. rewrite (Ho l Hl). apply Ho1, Hl.
  - destruct Hd as [Hd|(c & Hc & Hd)]; rewrite Hd.
    + exact Hd1.
    + right. exists c. split; [exact Hc|].
      destruct Hd1 as [->|(c1 & _ & ->)]; [reflexivity|].
      apply insert_insert_eq.
Qed.

(** C10 (as amended): [paginate_query] writes into the dictionary object
    of the caller.  A pass that starts with a truthy cursor (not [None],
    not empty) stores it under ['after'] before it fetches, and nothing
    else in a pass touches the heap.  When the call is over no other
    object and no other key has changed, ['after'] holds the cursor
    written last if one was written (it is not removed or restored), and
    the dictionary is the one that the queries of the last pass carried. *)
Theorem paginate_query_writes_after
    W query_template variables page_info_path max_pages fuel s :
  let s' := snd (paginate_query W query_template variables page_info_path
                   max_pages fuel s) in
  (forall p t,
     heap (snd (paginate_pass W query_template variables page_info_path p t))
       = heap (update_cursor variables p t) /\
     deref variables (update_cursor variables p t)
       = if Py.truthy (cursor p)
         then <["after"%string := cursor p]> (deref variables t)
         else deref variables t) /\
  (forall l, l <> variables -> heap s' !! l = heap s !! l) /\
  (deref variables s' = deref variables s \/
   exists c, Py.truthy c = true /\
             deref variables s' = <["after"%string := c]> (deref variables s)) /\
  (forall k, k <> "after"%string ->
             deref variables s' !! k = deref variables s !! k) /\
  (s' = s \/
   exists p t,
     s' = snd (paginate_pass W query_template variables page_info_path p t) /\
     extends (carries (payload_variables (Some variables) s'))
       (update_cursor variables p t) s').
Proof.
  intros s'.
  destruct (paginate_loop_heap W query_template variables page_info_path
              max_pages fuel initial_pager s) as (Ho & Hd).
  fold (paginate_query W query_template variables page_info_path max_pages fuel s)
    in Ho, Hd. fold s' in Ho, Hd.
  split; [|split; [exact Ho | split; [exact Hd | split]]].
  - intros p t. split.
    + apply (paginate_pass_spec W query_template variables page_info_path p t).
    + unfold update_cursor. destruct (Py.truthy (cursor p)); [|reflexivity].
      apply deref_write_after.
  - intros k Hk. destruct Hd as [->|(c & _ & ->)]; [reflexivity|].
    apply lookup_insert_ne. congruence.
  - destruct (paginate_loop_last_pass W query_template variables page_info_path
                max_pages fuel initial_pager s) as [H|(p & t & H)].
    + left. exact H.
    + right. exists p, t. split; [exact H|]. unfold s', paginate_query.
      rewrite H. apply paginate_pass_carries.
Qed.

(** C10 (counterexample): a cursor that is not [None] is not always
    written.  In [two_pages] the last page brings the cursor "Y", and the
    dictionary still holds "X" when the call returns; in
    [empty_cursor_pages] the first page brings the cursor "" and a second
    page is fetched, and the dictionary of the caller is left as it was. *)
Lemma obtained_cursor_not_written :
  let client := new_client ["A"; "B"]%string {[ 7%nat := caller_variables ]} in
  let run1 := paginate_query two_pages "q" 7 ["user"; "followers"]%string None 10 client in
  let run2 := paginate_query empty_cursor_pages "q" 7 ["user"; "followers"]%string
                None 10 client in
  fst run1 = Some (Ok [followers_page true (JStr "X"); followers_page false (JStr "Y")]) /\
  deref 7 (snd run1) !! "after"%string = Some (JStr "X") /\
  deref 7 (snd run1) !! "after"%string <> Some (JStr "Y") /\
  fst run2 = Some (Ok [followers_page true (JStr ""); followers_page false JNull]) /\
  posts (snd run2) = 4%nat /\
  deref 7 (snd run2) = caller_variables.
Proof.
  vm_compute. repeat split; discriminate.
Qed.

(** * The theorems at work on sample runs *)

Lemma rotate_key_circular_witness :
  current_key_index
    (rotate_times rotate_key 3 (new_client ["A"; "B"; "C"]%string ∅)) = 0%nat /\
  current_key_index
    (rotate_times Rest.rotate_key 3 (new_client ["A"; "B"; "C"]%string ∅)) = 0%nat.
Proof.
  pose proof (rotate_key_circular (new_client ["A"; "B"; "C"]%string ∅)
                ltac:(simpl; lia) ltac:(simpl; lia)) as [H1 H2].
  split; [exact (proj1 H1) | exact (proj1 H2)].
Defined.

Lemma authorization_errors_with_data_witness :
  fst (execute_query
         (answers [quota_answer 4000; Response 200 (Some partial_answer)] (Response 404 None))
         "q" None 5 two_keys)
  = Some (Ok partial_answer).
Proof.
  refine (f_equal fst (proj1 (proj2
    (authorization_errors_with_data
       (answers [quota_answer 4000; Response 200 (Some partial_answer)] (Response 404 None))
       "q" None 5 4 0 two_keys (sent (snapshot_request "A") two_keys) "A"
       partial_answer
       [JObj [("type"%string, JStr "FORBIDDEN");
              ("message"%string, JStr "Resource not accessible by integration")]]
       (JObj [("repository"%string, JObj [("name"%string, JStr "tf")])])
       _ _ _ _ _ _ _ _)))); vm_compute; reflexivity.
Defined.

Lemma authorization_errors_without_data_witness :
  fst (execute_query
         (answers [quota_answer 4000; Response 200 (Some denied_answer)] (Response 404 None))
         "q" None 5 two_keys)
  = Some (Ok JNull).
Proof.
  refine (f_equal fst (proj1 (proj2
    (authorization_errors_without_data
       (answers [quota_answer 4000; Response 200 (Some denied_answer)] (Response 404 None))
       "q" None 5 4 0 two_keys (sent (snapshot_request "A") two_keys) "A"
       denied_answer
       [JObj [("type"%string, JStr "FORBIDDEN");
              ("message"%string, JStr "Resource not accessible by integration")];
        JObj [("message"%string, JStr "You do not have permission to view this")]]
       _ _ _ _ _ _ _ _)))); try (vm_compute; reflexivity).
  discriminate.
Defined.

Lemma unclassified_errors_returned_witness :
  fst (execute_query not_found_server "q" None 5 two_keys) = Some (Ok user_not_found).
Proof.
  refine (f_equal fst (proj1 (proj2
    (unclassified_errors_returned not_found_server "q" None 5 4 0 two_keys
       (sent (snapshot_request "A") two_keys) "A" user_not_found
       [JObj [("type"%string, JStr "NOT_FOUND");
              ("path"%string, JArr [JStr "user"]);
              ("message"%string,
               JStr "Could not resolve to a User with the login of 'nobody'.")]]
       _ _ _ _ _ _ _ _ _)))); vm_compute; reflexivity.
Defined.

Lemma snapshot_on_first_attempt_only_witness :
  exists tr,
    trace (snd (execute_query low_quota "q" (Some 7%nat) 5 two_keys)) =
      [Post (snapshot_request "A"); Sleep (inject_Z 1);
       Post (query_request "q" (Some 7%nat) "B" two_keys)] ++ tr /\
    Forall quiet tr.
Proof.
  exact (proj2 (proj2 (snapshot_on_first_attempt_only low_quota "q" (Some 7%nat) 5 two_keys))
           "A"%string "B"%string
           [("limit"%string, JInt 5000); ("cost"%string, JInt 1);
            ("remaining"%string, JInt 50);
            ("resetAt"%string, JStr "2024-01-01T00:00:00Z")]
           50 (JInt 5000) eq_refl eq_refl ltac:(lia) eq_refl eq_refl eq_refl
           ltac:(reflexivity)).
Defined.

Lemma paginate_query_bounded_witness :
  let run := paginate_query two_pages "q" 7 ["user"; "followers"]%string (Some 1) 3 two_keys in
  fst run = Some (Ok [followers_page true (JStr "X")]) /\
  exists r,
    fst run = Some r /\
    forall pages,
      r = Ok pages ->
      Z.of_nat (length pages) <= 1 /\
      fetched_in_order two_pages (posts two_keys) (posts (snd run)) pages /\
      pages = payloads (fetched two_pages "q" 7 ["user"; "followers"]%string
                          (Some 1) 3 initial_pager two_keys).
Proof.
  intros run. split; [vm_compute; reflexivity|].
  apply (paginate_query_bounded two_pages "q" 7 ["user"; "followers"]%string 1 3
           two_keys).
  - lia.
  - simpl. lia.
Defined.

Lemma three_failures_stop_pagination_witness :
  fst (paginate_loop down "q" 7 ["user"; "followers"]%string None 3
         initial_pager two_keys)
  = Some (Ok []).
Proof.
  set (s1 := snd (execute_query down "q" (Some 7%nat) 5
                    (update_cursor 7 initial_pager two_keys))).
  set (s2 := snd (execute_query down "q" (Some 7%nat) 5
                    (update_cursor 7 initial_pager (log_event (Sleep (inject_Z 2)) s1)))).
  set (s3 := snd (execute_query down "q" (Some 7%nat) 5
                    (update_cursor 7 initial_pager (log_event (Sleep (inject_Z 4)) s2)))).
  refine (f_equal fst (proj1
    (three_failures_stop_pagination down "q" 7 ["user"; "followers"]%string None 0
       initial_pager two_keys JNull s1 JNull s2 JNull s3 _ _ _ _ _ _ _ _)));
    vm_compute; reflexivity.
Defined.

Lemma paginate_query_writes_after_witness :
  let s' := snd (paginate_query two_pages "q" 7 ["user"; "followers"]%string None 10
                   two_keys) in
  deref 7 s' = <["after"%string := JStr "X"]> caller_variables /\
  (deref 7 s' = deref 7 two_keys \/
   exists c, Py.truthy c = true /\
             deref 7 s' = <["after"%string := c]> (deref 7 two_keys)).
Proof.
  intros s'. split; [vm_compute; reflexivity|].
  exact (proj1 (proj2 (proj2
    (paginate_query_writes_after two_pages "q" 7 ["user"; "followers"]%string
       None 10 two_keys)))).
Defined.

(** * Further properties of the client *)

(** ** Requests sent and keys kept *)

Lemma evolves_refl s : evolves 0 s s.
Proof. repeat split; auto; lia. Qed.

Lemma evolves_trans k1 k2 s1 s2 s3 :
  evolves k1 s1 s2 -> evolves k2 s2 s3 -> evolves (k1 + k2) s1 s3.
Proof.
  intros (Hk1 & Hi1 & Hp1) (Hk2 & Hi2 & Hp2).
  repeat split; try congruence; auto; lia.
Qed.

Lemma evolves_weaken k k' s s' :
  (k <= k')%nat -> evolves k s s' -> evolves k' s s'.
Proof. intros Hle (Hk & Hi & Hp). repeat split; auto; lia. Qed.

Lemma evolves_log ev s : evolves 0 s (log_event ev s).
Proof. repeat split; simpl; auto; lia. Qed.

Lemma evolves_then_log k ev s s' :
  evolves k s s' -> evolves k s (log_event ev s').
Proof.
  intros H. replace k with (k + 0)%nat by lia.
  eapply evolves_trans; [exact H | apply evolves_log].
Qed.

Lemma costs_ret {A} (a : A) : costs 0 (ret a).
Proof. intros s. apply evolves_refl. Qed.

Lemma costs_lift {A} (r : result A) : costs 0 (lift r).
Proof. intros s. apply evolves_refl. Qed.

Lemma costs_bind {A B} k1 k2 (m : M A) (f : A -> M B) :
  costs k1 m -> (forall a, costs k2 (f a)) -> costs (k1 + k2) (bind m f).
Proof.
  intros Hm Hf s. unfold bind. specialize (Hm s).
  destruct (m s) as [[a|e] s1]; simpl in *.
  - eapply evolves_trans; [exact Hm | apply Hf].
  - eapply evolves_weaken; [|exact Hm]. lia.
Qed.

Lemma costs_bind_free {A B} (m : M A) (f : A -> M B) :
  costs 0 m -> (forall a, costs 0 (f a)) -> costs 0 (bind m f).
Proof. intros Hm Hf. apply (costs_bind 0 0); assumption. Qed.

Lemma costs_weaken {A} k k' (m : M A) : (k <= k')%nat -> costs k m -> costs k' m.
Proof. intros Hle Hm s. eapply evolves_weaken; [exact Hle | apply Hm]. Qed.

Lemma costs_sleep seconds : costs 0 (sleep seconds).
Proof.
  intros s.
  destruct (sleep_cases seconds s) as [[_ ->]|[[_ ->]|[_ ->]]]; simpl;
    [apply evolves_log | apply evolves_refl ..].
Qed.

Lemma evolves_on_exception rc s : evolves 0 s (snd (on_exception rc s)).
Proof.
  destruct (on_exception_cases rc s) as [[_ ->]|[_ ->]]; simpl;
    [apply evolves_log | apply evolves_refl].
Qed.

Lemma costs_sleep_incremented rc : costs 0 (sleep_incremented rc).
Proof.
  intros s.
  destruct (sleep_incremented_cases rc s) as [[_ ->]|[_ ->]]; simpl;
    [apply evolves_log | apply evolves_refl].
Qed.

Lemma costs_rate_limit_wait seconds : costs 0 (rate_limit_wait seconds).
Proof.
  unfold rate_limit_wait. induction (Z.to_nat seconds) as [|n IH]; simpl.
  - apply costs_ret.
  - apply costs_bind_free; [apply costs_sleep | intros _; exact IH].
Qed.

Lemma costs_rotate_key : costs 0 rotate_key.
Proof.
  intros s. unfold rotate_key.
  destruct (length (api_keys s) <=? 1)%nat eqn:Hn; simpl; [apply evolves_refl|].
  apply Nat.leb_gt in Hn.
  repeat split; unfold in_range; simpl; auto; try lia.
  intros _. apply Nat.mod_upper_bound. lia.
Qed.

Lemma costs_rest_rotate_key : costs 0 Rest.rotate_key.
Proof.
  intros s. unfold Rest.rotate_key.
  destruct (length (api_keys s) <=? 1)%nat eqn:Hn; simpl; [apply evolves_refl|].
  apply Nat.leb_gt in Hn.
  repeat split; unfold in_range; simpl; auto; try lia.
  intros _. apply Nat.mod_upper_bound. lia.
Qed.

Lemma costs_randint W a b : costs 0 (randint W a b).
Proof. intros s. repeat split; simpl; auto; lia. Qed.

Lemma costs_post W site query variables timeout :
  costs 1 (post W site query variables timeout).
Proof.
  intros s. rewrite post_state.
  destruct (nth_error (api_keys s) (current_key_index s)).
  - repeat split; simpl; auto; lia.
  - eapply evolves_weaken; [|apply evolves_refl]. lia.
Qed.

Ltac costs_tac :=
  repeat first
    [ apply costs_ret
    | apply costs_lift
    | apply costs_sleep
    | apply costs_sleep_incremented
    | apply costs_rotate_key
    | apply costs_rest_rotate_key
    | apply costs_rate_limit_wait
    | apply costs_randint
    | apply costs_bind_free; [|intros ?]
    | match goal with
      | |- costs _ (if ?b then _ else _) => destruct b
      | |- costs _ (match ?x with _ => _ end) => destruct x
      end ].

Lemma costs_handle_response W rc response :
  costs 0 (handle_response W rc response).
Proof. unfold handle_response, handle_200. costs_tac. Qed.

Lemma costs_send_request W query variables rc :
  costs 1 (send_request W query variables rc).
Proof.
  unfold send_request. apply (costs_bind 1 0).
  - apply costs_post.
  - intros response. apply costs_handle_response.
Qed.

Lemma costs_check_rate_limit W : costs 1 (check_rate_limit W).
Proof.
  intros s. destruct (check_rate_limit_state W s) as (rate_limit & ->). simpl.
  destruct (nth_error (api_keys s) (current_key_index s)).
  - repeat split; simpl; auto; lia.
  - eapply evolves_weaken; [|apply evolves_refl]. lia.
Qed.

Lemma costs_rate_limit_gate W rc :
  costs (if (rc =? 0)%Z then 1 else 0)%nat (rate_limit_gate W rc).
Proof.
  unfold rate_limit_gate. destruct (rc =? 0); [|apply costs_ret].
  apply (costs_bind 1 0); [apply costs_check_rate_limit|].
  intros rate_limit. costs_tac.
Qed.

Lemma costs_try_body W query variables rc :
  costs (if (rc =? 0)%Z then 2 else 1)%nat (try_body W query variables rc).
Proof.
  unfold try_body.
  replace (if (rc =? 0)%Z then 2 else 1)%nat
    with ((if (rc =? 0)%Z then 1 else 0) + 1)%nat by (destruct (rc =? 0); reflexivity).
  apply costs_bind; [apply costs_rate_limit_gate|].
  intros [r|].
  - eapply costs_weaken; [|apply costs_ret]. lia.
  - apply costs_send_request.
Qed.

Lemma evolves_execute_attempt W query variables rc s :
  evolves (if (rc =? 0)%Z then 2 else 1)%nat s
    (snd (execute_attempt W query variables rc s)).
Proof.
  unfold execute_attempt.
  pose proof (costs_try_body W query variables rc s) as H.
  destruct (try_body W query variables rc s) as [[r|e] s']; simpl in *;
    [exact H|].
  destruct e; simpl;
    first [apply evolves_then_log, H
          |replace (if (rc =? 0)%Z then 2 else 1)%nat
             with ((if (rc =? 0)%Z then 2 else 1) + 0)%nat by lia;
           eapply evolves_trans; [exact H | apply evolves_on_exception]].
Qed.

Lemma evolves_execute_loop W query variables max_retries fuel :
  forall rc s,
    1 <= rc ->
    evolves (Z.to_nat (max_retries - rc)) s
      (snd (execute_loop W query variables max_retries fuel rc s)).
Proof.
  induction fuel as [|fuel IH]; intros rc s Hrc; cbn [execute_loop];
    destruct (Z.ltb_spec rc max_retries) as [Hlt|Hge];
    try (eapply evolves_weaken; [|apply evolves_refl]; lia).
  pose proof (evolves_execute_attempt W query variables rc s) as Ha.
  pose proof (execute_attempt_advances W query variables rc s) as Hadv.
  destruct (Z.eqb_spec rc 0) as [->|_]; [lia|].
  destruct (execute_attempt W query variables rc s) as [[v|rc'|e] s']; simpl in *.
  - eapply evolves_weaken; [|exact Ha]. lia.
  - subst rc'. eapply evolves_weaken;
      [|eapply evolves_trans; [exact Ha | apply IH; lia]]. lia.
  - eapply evolves_weaken; [|exact Ha]. lia.
Qed.

Lemma evolves_execute_query W query variables max_retries s :
  evolves (1 + Z.to_nat max_retries) s
    (snd (execute_query W query variables max_retries s)).
Proof.
  unfold execute_query.
  destruct (Z.to_nat max_retries) as [|fuel] eqn:Hfuel; cbn [execute_loop];
    destruct (Z.ltb_spec 0 max_retries) as [Hlt|Hge];
    try (eapply evolves_weaken; [|apply evolves_refl]; lia).
  pose proof (evolves_execute_attempt W query variables 0 s) as Ha.
  pose proof (execute_attempt_advances W query variables 0 s) as Hadv.
  destruct (execute_attempt W query variables 0 s) as [[v|rc'|e] s']; simpl in *.
  - eapply evolves_weaken; [|exact Ha]. lia.
  - subst rc'. eapply evolves_weaken;
      [|eapply evolves_trans;
          [exact Ha
          |apply (evolves_execute_loop W query variables max_retries fuel 1 s');
           lia]].
    lia.
  - eapply evolves_weaken; [|exact Ha]. lia.
Qed.

(** X1: whatever the network does, [execute_query] sends at most one
    quota snapshot and [max_retries] queries, keeps the list of keys and
    the objects of the heap, and leaves the active index in range if it
    was; with [max_retries <= 0] it returns [None] and does nothing. *)
Theorem execute_query_requests W query variables max_retries s :
  let s' := snd (execute_query W query variables max_retries s) in
  api_keys s' = api_keys s /\
  heap s' = heap s /\
  (in_range s -> in_range s') /\
  (posts s <= posts s' <= posts s + 1 + Z.to_nat max_retries)%nat /\
  (max_retries <= 0 ->
   execute_query W query variables max_retries s = (Some (Ok JNull), s)).
Proof.
  intros s'.
  destruct (evolves_execute_query W query variables max_retries s)
    as (Hk & Hi & Hp).
  destruct (execute_query_spec W query variables max_retries s)
    as (v & t & He & (_ & Hh & _) & _).
  fold s' in Hk, Hi, Hp. assert (Ht : s' = t) by (unfold s'; rewrite He; reflexivity).
  split; [exact Hk|]. split; [rewrite Ht; exact Hh|]. split; [exact Hi|].
  split; [lia|].
  intros Hle. unfold execute_query.
  destruct (Z.to_nat max_retries); cbn [execute_loop];
    destruct (Z.ltb_spec 0 max_retries); try lia; reflexivity.
Qed.

(** ** check_rate_limit *)

Lemma lift_inv {A} (r : result A) s a s' :
  lift r s = (Ok a, s') -> r = Ok a /\ s' = s.
Proof. unfold lift. intros [= -> ->]. auto. Qed.

Lemma ret_inv {A} (x a : A) s s' : ret x s = (Ok a, s') -> x = a /\ s' = s.
Proof. unfold ret. intros [= -> ->]. auto. Qed.

(** When the [try] block of [check_rate_limit] returns, the answer had
    status 200 and held the object it returns under [data.rateLimit],
    with the two fields the log line reads. *)
Lemma check_rate_limit_try_inv W s rate_limit s1 :
  check_rate_limit_try W s = (Ok (Some rate_limit), s1) ->
  exists body d fields,
    rate_limit = JObj fields /\
    net W (posts s) = Response 200 (Some body) /\
    Py.getitem body "data" = Ok d /\
    Py.getitem d "rateLimit" = Ok (JObj fields) /\
    Py.lookup_field "remaining" fields <> None /\
    Py.lookup_field "limit" fields <> None.
Proof.
  unfold check_rate_limit_try. intros H.
  apply bind_ok_inv in H. destruct H as ([code body] & s2 & Hpost & H).
  apply post_ok_inv in Hpost. destruct Hpost as [Hnet _]. simpl in Hnet, H.
  destruct (Z.eqb_spec code 200) as [->|_];
    [|apply ret_inv in H; destruct H as [[=] _]].
  apply bind_ok_inv in H. destruct H as (data & s3 & Hj & H).
  apply lift_inv in Hj. destruct Hj as [Hj ->].
  destruct body as [b|]; [|discriminate]. injection Hj as ->.
  apply bind_ok_inv in H. destruct H as (has_data & s3 & Hc & H).
  apply lift_inv in Hc. destruct Hc as [_ ->].
  destruct has_data; [|apply ret_inv in H; destruct H as [[=] _]].
  apply bind_ok_inv in H. destruct H as (d & s3 & Hd & H).
  apply lift_inv in Hd. destruct Hd as [Hd ->].
  apply bind_ok_inv in H. destruct H as (has_rl & s3 & Hc & H).
  apply lift_inv in Hc. destruct Hc as [_ ->].
  destruct has_rl; [|apply ret_inv in H; destruct H as [[=] _]].
  apply bind_ok_inv in H. destruct H as (rl & s3 & Hrl & H).
  apply lift_inv in Hrl. destruct Hrl as [Hrl ->].
  apply bind_ok_inv in H. destruct H as (x & s3 & Hrem & H).
  apply lift_inv in Hrem. destruct Hrem as [Hrem ->].
  apply bind_ok_inv in H. destruct H as (y & s3 & Hlim & H).
  apply lift_inv in Hlim. destruct Hlim as [Hlim ->].
  apply ret_inv in H. destruct H as [[= ->] _].
  destruct (getitem_object _ _ _ Hrem) as (fields & -> & Hr).
  simpl in Hlim.
  destruct (Py.lookup_field "limit" fields) eqn:Hl;
    [|discriminate Hlim].
  exists data, d, fields. rewrite Hr, Hl. repeat split; auto; discriminate.
Qed.

(** The converse of [check_rate_limit_try_inv]. *)
Lemma check_rate_limit_reads W s key body d quota remaining limit :
  nth_error (api_keys s) (current_key_index s) = Some key ->
  net W (posts s) = Response 200 (Some body) ->
  Py.getitem body "data" = Ok d ->
  Py.getitem d "rateLimit" = Ok (JObj quota) ->
  Py.lookup_field "remaining" quota = Some remaining ->
  Py.lookup_field "limit" quota = Some limit ->
  check_rate_limit W s = (Ok (JObj quota), sent (snapshot_request key) s).
Proof.
  intros Hk Hn Hd Hq Hr Hl.
  destruct (getitem_object _ _ _ Hd) as (f1 & -> & H1).
  destruct (getitem_object _ _ _ Hq) as (f2 & -> & H2).
  unfold check_rate_limit, check_rate_limit_try, post, current_key, bind, lift, ret.
  rewrite Hk, Hn. simpl. rewrite H1. simpl. rewrite H2. simpl. rewrite Hr, Hl.
  reflexivity.
Qed.

(** X2: [check_rate_limit] never raises and always returns a dictionary
    with a [remaining] entry, so the executor can read it: it is
    [{'remaining': 0}] unless the answer had status 200 and held, under
    [data.rateLimit], an object with [remaining] and [limit]; and when
    the answer is such, that object is what is returned.  The call sends
    one request when a key is active and does nothing else to the
    client. *)
Theorem check_rate_limit_conservative W s :
  let run := check_rate_limit W s in
  snd run = match nth_error (api_keys s) (current_key_index s) with
            | Some key => sent (snapshot_request key) s
            | None => s
            end /\
  exists fields,
    fst run = Ok (JObj fields) /\
    Py.lookup_field "remaining" fields <> None /\
    (fields = [("remaining"%string, JInt 0)] \/
     exists body d,
       net W (posts s) = Response 200 (Some body) /\
       Py.getitem body "data" = Ok d /\
       Py.getitem d "rateLimit" = Ok (JObj fields) /\
       Py.lookup_field "limit" fields <> None) /\
    (forall key body d quota remaining limit,
       nth_error (api_keys s) (current_key_index s) = Some key ->
       net W (posts s) = Response 200 (Some body) ->
       Py.getitem body "data" = Ok d ->
       Py.getitem d "rateLimit" = Ok (JObj quota) ->
       Py.lookup_field "remaining" quota = Some remaining ->
       Py.lookup_field "limit" quota = Some limit ->
       fields = quota).
Proof.
  intros run.
  assert (Hgood : forall key body d quota remaining limit,
             nth_error (api_keys s) (current_key_index s) = Some key ->
             net W (posts s) = Response 200 (Some body) ->
             Py.getitem body "data" = Ok d ->
             Py.getitem d "rateLimit" = Ok (JObj quota) ->
             Py.lookup_field "remaining" quota = Some remaining ->
             Py.lookup_field "limit" quota = Some limit ->
             forall fields, fst run = Ok (JObj fields) -> fields = quota).
  { intros key body d quota remaining limit Hk Hn Hd Hq Hr Hl fields Hf.
    subst run.
    rewrite (check_rate_limit_reads W s key body d quota remaining limit
               Hk Hn Hd Hq Hr Hl) in Hf.
    injection Hf as <-. reflexivity. }
  split.
  - subst run. destruct (check_rate_limit_state W s) as (rl & ->). reflexivity.
  - cut (exists fields,
           fst run = Ok (JObj fields) /\
           Py.lookup_field "remaining" fields <> None /\
           (fields = [("remaining"%string, JInt 0)] \/
            exists body d,
              net W (posts s) = Response 200 (Some body) /\
              Py.getitem body "data" = Ok d /\
              Py.getitem d "rateLimit" = Ok (JObj fields) /\
              Py.lookup_field "limit" fields <> None)).
    { intros (fields & Hf & Hr & Hc). exists fields.
      split; [exact Hf|]. split; [exact Hr|]. split; [exact Hc|].
      intros key body d quota remaining limit Hk Hn Hd Hq Hrem Hl.
      exact (Hgood key body d quota remaining limit Hk Hn Hd Hq Hrem Hl fields Hf). }
    subst run. unfold check_rate_limit.
    destruct (check_rate_limit_try W s) as [[[rl|]|e] s1] eqn:Ht; simpl;
      try (eexists; split; [reflexivity|]; split; [discriminate | left; reflexivity]).
    destruct (check_rate_limit_try_inv W s rl s1 Ht)
      as (body & d & fields & -> & Hn & Hd & Hrl & Hr & Hl).
    exists fields. split; [reflexivity|]. split; [exact Hr|].
    right. exists body, d. auto.
Qed.

(** ** More on one call of the executor *)

(** X3: a query answered with status 401.  With one key (or none) the
    call ends at once with [None], whatever retries are left; with more
    keys the pass rotates to the next key, pauses one second and goes on
    with the retry count plus one. *)
Theorem unauthorized_key
    W query variables max_retries fuel rc s s1 key body :
  rc < max_retries ->
  rate_limit_gate W rc s = (Ok None, s1) ->
  nth_error (api_keys s1) (current_key_index s1) = Some key ->
  net W (posts s1) = Response 401 body ->
  let s2 := sent (query_request query variables key s1) s1 in
  ((length (api_keys s1) <= 1)%nat ->
   execute_attempt W query variables rc s = (Return JNull, s2) /\
   execute_loop W query variables max_retries (S fuel) rc s = (Some (Ok JNull), s2)) /\
  ((2 <= length (api_keys s1))%nat ->
   execute_attempt W query variables rc s =
     (Continue (rc + 1),
      log_event (Sleep (inject_Z 1))
        (set_index ((current_key_index s1 + 1) mod length (api_keys s1))%nat s2))).
Proof.
  intros Hrc Hg Hk Hn s2.
  assert (Ht : try_body W query variables rc s
               = handle_response W rc (401, body) s2).
  { unfold try_body. rewrite (bind_ok _ _ _ _ _ Hg).
    unfold send_request, post, current_key, bind. rewrite Hk, Hn. reflexivity. }
  split; intros Hlen.
  - assert (Ha : execute_attempt W query variables rc s = (Return JNull, s2)).
    { unfold execute_attempt. rewrite Ht.
      unfold handle_response, bind, rotate_key, ret. simpl.
      rewrite (proj2 (Nat.leb_le _ _) Hlen). reflexivity. }
    split; [exact Ha | apply loop_returns; assumption].
  - unfold execute_attempt. rewrite Ht.
    unfold handle_response, bind, rotate_key, ret. simpl.
    rewrite (proj2 (Nat.leb_gt _ _) Hlen). reflexivity.
Qed.

(** X4: the first pass with a single key and a quota that reads low (or
    could not be read, which gives [remaining = 0]) sends no query: it
    waits one second and uses up a retry.  With [max_retries = 1] the
    call returns [None] and the query is never sent. *)
Theorem low_quota_single_key W query variables s rate_limit s1 remaining :
  (length (api_keys s) <= 1)%nat ->
  check_rate_limit W s = (Ok rate_limit, s1) ->
  Py.get rate_limit "remaining" (JInt 0) = Ok remaining ->
  Py.lt_int remaining RATE_LIMIT_THRESHOLD = Ok true ->
  let s2 := log_event (Sleep (inject_Z 1)) s1 in
  execute_attempt W query variables 0 s = (Continue 1, s2) /\
  execute_query W query variables 1 s = (Some (Ok JNull), s2) /\
  trace s2 = trace s1 ++ [Sleep (inject_Z 1)] /\
  posts s2 = posts s1.
Proof.
  intros Hlen Hc Hr Hl s2.
  assert (Hk : api_keys s1 = api_keys s).
  { pose proof (costs_check_rate_limit W s) as (Hk & _). rewrite Hc in Hk. exact Hk. }
  assert (Ha : execute_attempt W query variables 0 s = (Continue 1, s2)).
  { unfold execute_attempt, try_body, rate_limit_gate. cbn [Z.eqb].
    rewrite bind_assoc. rewrite (bind_ok _ _ _ _ _ Hc).
    unfold bind, lift, rotate_key. rewrite Hr, Hl, Hk.
    rewrite (proj2 (Nat.leb_le _ _) Hlen). reflexivity. }
  split; [exact Ha|]. split; [|split; reflexivity].
  unfold execute_query. change (Z.to_nat 1) with 1%nat. cbn [execute_loop].
  change (0 <? 1) with true. cbv iota. rewrite Ha. reflexivity.
Qed.

Lemma execute_attempt_return_last W query variables rc s v s' :
  execute_attempt W query variables rc s = (Return v, s') ->
  v <> JNull ->
  (posts s < posts s')%nat /\
  net W (Nat.pred (posts s')) = Response 200 (Some v).
Proof.
  unfold execute_attempt. intros Ha Hv.
  destruct (try_body W query variables rc s) as [[r|e] s''] eqn:Ht;
    [|destruct e; try discriminate Ha;
      exfalso; exact (on_exception_no_return _ _ _ _ Ha)].
  injection Ha as -> ->. unfold try_body in Ht.
  apply bind_ok_inv in Ht. destruct Ht as (gate & s1 & Hg & Hk).
  pose proof (rate_limit_gate_advances W rc s) as Hadv. rewrite Hg in Hadv.
  pose proof (costs_rate_limit_gate W rc s) as (_ & _ & Hp1).
  rewrite Hg in Hp1. simpl in *.
  destruct gate as [r|]; [subst r; discriminate|].
  unfold send_request in Hk. apply bind_ok_inv in Hk.
  destruct Hk as (response & s2 & Hpost & Hh).
  apply post_ok_inv in Hpost. destruct Hpost as [Hnet Hp2].
  pose proof (handle_response_return W rc response s2) as Hr.
  pose proof (costs_handle_response W rc response s2) as (_ & _ & Hp3).
  rewrite Hh in Hr, Hp3. simpl in *.
  destruct Hr as [Hr|[H200 Hbody]]; [contradiction|].
  replace (posts s') with (S (posts s1)) by lia. simpl.
  split; [lia|]. rewrite Hnet, H200, Hbody. reflexivity.
Qed.

Lemma execute_loop_result_last W query variables max_retries fuel :
  forall rc s v s',
    execute_loop W query variables max_retries fuel rc s = (Some (Ok v), s') ->
    v <> JNull ->
    (posts s < posts s')%nat /\
    net W (Nat.pred (posts s')) = Response 200 (Some v).
Proof.
  induction fuel as [|fuel IH]; intros rc s v s'; cbn [execute_loop];
    destruct (rc <? max_retries); try congruence.
  pose proof (evolves_execute_attempt W query variables rc s) as (_ & _ & Hp).
  destruct (execute_attempt W query variables rc s) as [[r|rc'|e] s1] eqn:Ha;
    simpl in Hp.
  - intros [= <- <-] Hv. eapply execute_attempt_return_last; eauto.
  - intros Hl Hv. destruct (IH _ _ _ _ Hl Hv) as (Hlt & Hn).
    split; [lia | exact Hn].
  - discriminate.
Qed.

(** X5: a call of [execute_query] comes to an end.  With [max_retries] up
    to 33 it returns a value; an exception leaves it only with 34 retries
    or more, and it is the [OverflowError] that [time.sleep] raises for a
    wait of [2 ** 34] seconds (as in the run against [down] with 34
    retries).  A value other than [None] is the parsed body of the
    response, with status 200, to the last request the call sent. *)
Theorem execute_query_result W query variables max_retries s :
  (exists r s',
     execute_query W query variables max_retries s = (Some r, s') /\
     (max_retries <= 33 -> exists v, r = Ok v) /\
     (forall e, r = Raise e -> e = OverflowError /\ 34 <= max_retries) /\
     (forall v, r = Ok v -> v <> JNull ->
      (posts s < posts s')%nat /\
      net W (Nat.pred (posts s')) = Response 200 (Some v))) /\
  fst (execute_query down "q" None 33 two_keys) = Some (Ok JNull) /\
  fst (execute_query down "q" None 34 two_keys) = Some (Raise OverflowError).
Proof.
  split; [|split; vm_compute; reflexivity].
  destruct (execute_query_returns W query variables max_retries s) as (r & Hr).
  destruct (execute_query W query variables max_retries s) as [o s'] eqn:He.
  simpl in Hr. subst o. exists r, s'. split; [reflexivity|].
  assert (Hlate : forall e, r = Raise e -> e = OverflowError /\ 34 <= max_retries).
  { intros e ->.
    apply (execute_loop_late W query variables max_retries
             (Z.to_nat max_retries) 0 s e).
    unfold execute_query in He. rewrite He. reflexivity. }
  split; [|split; [exact Hlate|]].
  - intros Hmax. destruct r as [v|e]; [eauto|].
    destruct (Hlate e eq_refl) as [_ H34]. lia.
  - intros v -> Hn. eapply execute_loop_result_last; eauto.
Qed.

(** ** More on the paginator *)

Lemma evolves_update_cursor variables p s :
  evolves 0 s (update_cursor variables p s).
Proof.
  unfold update_cursor. destruct (Py.truthy (cursor p)); [|apply evolves_refl].
  repeat split; simpl; auto; lia.
Qed.

Lemma evolves_paginate_pass W query_template variables page_info_path p s :
  evolves 6 s (snd (paginate_pass W query_template variables page_info_path p s)).
Proof.
  unfold paginate_pass.
  pose proof (evolves_trans _ _ _ _ _ (evolves_update_cursor variables p s)
                (evolves_execute_query W query_template (Some variables) 5
                   (update_cursor variables p s))) as He.
  change (0 + (1 + Z.to_nat 5))%nat with 6%nat in He.
  destruct (execute_query W query_template (Some variables) 5
              (update_cursor variables p s)) as [[[r|e]|] s1]; simpl in He;
    [|exact He|exact He].
  destruct (unusable r) as [[|]|e]; [| |exact He].
  - unfold reject_page. destruct (_ >=? _); simpl; [exact He|].
    apply evolves_then_log, He.
  - destruct (accept_page page_info_path p r); simpl; [|exact He].
    apply evolves_then_log, He.
Qed.

Lemma evolves_paginate_loop W query_template variables page_info_path max_pages fuel :
  forall p s,
    evolves (6 * fuel) s
      (snd (paginate_loop W query_template variables page_info_path max_pages
              fuel p s)).
Proof.
  induction fuel as [|fuel IH]; intros p s; cbn [paginate_loop];
    destruct (loop_condition max_pages p);
    try (eapply evolves_weaken; [|apply evolves_refl]; lia).
  pose proof (evolves_paginate_pass W query_template variables page_info_path p s)
    as Hp.
  destruct (paginate_pass W query_template variables page_info_path p s)
    as [[[[|p']|e]|] s1]; simpl in *;
    try (eapply evolves_weaken; [|exact Hp]; lia).
  eapply evolves_weaken; [|eapply evolves_trans; [exact Hp | apply IH]]. lia.
Qed.

Lemma paginate_loop_requests W query_template variables page_info_path max_pages :
  forall fuel p s,
    0 <= consecutive_failures p < max_consecutive_failures ->
    page_count p <= max_pages ->
    (posts (snd (paginate_loop W query_template variables page_info_path
                   (Some max_pages) fuel p s))
     <= posts s
        + 6 * (3 * Z.to_nat (max_pages - page_count p)
               - Z.to_nat (consecutive_failures p)))%nat.
Proof.
  unfold max_consecutive_failures.
  induction fuel as [|fuel IH]; intros p s Hcf Hpc; cbn [paginate_loop];
    destruct (loop_condition (Some max_pages) p) eqn:Hc; simpl; try lia.
  apply loop_condition_bounded in Hc.
  pose proof (paginate_pass_spec W query_template variables page_info_path p s)
    as (_ & _ & _ & Hout).
  pose proof (evolves_paginate_pass W query_template variables page_info_path p s)
    as (_ & _ & Hposts).
  destruct (paginate_pass W query_template variables page_info_path p s)
    as [[[[|p']|e]|] s1]; simpl in *; try lia.
  unfold max_consecutive_failures in Hout.
  destruct Hout as [(_ & Hp & _ & _ & Hcf' & Hlt)
                   |(r & i & _ & Hp & Hcf' & _)].
  - specialize (IH p' s1). rewrite Hp, Hcf' in IH.
    specialize (IH ltac:(lia) ltac:(lia)). lia.
  - specialize (IH p' s1). rewrite Hp, Hcf' in IH.
    specialize (IH ltac:(lia) ltac:(lia)). lia.
Qed.

(** X6: [paginate_query] never changes the list of keys and leaves the
    active index in range if it was; with a finite [max_pages >= 0] it
    sends at most [18 * max_pages] requests (three fetches for a page,
    each of at most one snapshot and five queries). *)
Theorem paginate_query_requests
    W query_template variables page_info_path max_pages fuel s :
  let s' := snd (paginate_query W query_template variables page_info_path
                   max_pages fuel s) in
  api_keys s' = api_keys s /\
  (in_range s -> in_range s') /\
  (posts s <= posts s')%nat /\
  (forall m,
     max_pages = Some m -> 0 <= m ->
     (posts s' <= posts s + 18 * Z.to_nat m)%nat).
Proof.
  intros s'.
  destruct (evolves_paginate_loop W query_template variables page_info_path
              max_pages fuel initial_pager s) as (Hk & Hi & Hp).
  fold (paginate_query W query_template variables page_info_path max_pages fuel s)
    in Hk, Hi, Hp. fold s' in Hk, Hi, Hp.
  split; [exact Hk|]. split; [exact Hi|]. split; [lia|].
  intros m -> Hm.
  pose proof (paginate_loop_requests W query_template variables page_info_path m
                fuel initial_pager s) as H.
  fold (paginate_query W query_template variables page_info_path (Some m) fuel s) in H.
  fold s' in H. unfold max_consecutive_failures in H. simpl in H.
  specialize (H ltac:(lia) Hm). rewrite Z.sub_0_r in H. lia.
Qed.

Lemma in_range_key s :
  in_range s -> exists key, nth_error (api_keys s) (current_key_index s) = Some key.
Proof.
  intros H. destruct (nth_error (api_keys s) (current_key_index s)) as [key|] eqn:E.
  - eauto.
  - apply nth_error_None in E. unfold in_range in H. lia.
Qed.

(** A fetch against an API that answers every request with
    [endless_answer c]. *)
Lemma endless_fetch W query variables c s :
  (forall k, net W k = Response 200 (Some (endless_answer c))) ->
  in_range s ->
  exists s',
    execute_query W query variables 5 s = (Some (Ok (endless_answer c)), s') /\
    in_range s'.
Proof.
  intros HW Hi. destruct (in_range_key s Hi) as (key & Hk).
  assert (Hg : rate_limit_gate W 0 s = (Ok None, sent (snapshot_request key) s)).
  { unfold rate_limit_gate. cbn [Z.eqb].
    rewrite (bind_ok _ _ _ _ _
               (check_rate_limit_reads W s key _ _ _ (JInt 5000) (JInt 5000) Hk
                  (HW (posts s)) eq_refl eq_refl eq_refl eq_refl)).
    reflexivity. }
  assert (Ha : execute_attempt W query variables 0 s =
               (Return (endless_answer c),
                sent (query_request query variables key (sent (snapshot_request key) s))
                  (sent (snapshot_request key) s))).
  { unfold execute_attempt.
    rewrite (try_body_200 W query variables 0 s _ key _ Hg Hk (HW _)).
    reflexivity. }
  eexists. split.
  - unfold execute_query. change (Z.to_nat 5) with 5%nat.
    apply loop_returns; [lia | exact Ha].
  - unfold in_range in *. simpl. exact Hi.
Qed.

Lemma endless_loop W query_template variables c :
  (forall k, net W k = Response 200 (Some (endless_answer c))) ->
  forall fuel p s,
    Py.truthy (has_next p) = true ->
    in_range s ->
    fst (paginate_loop W query_template variables ["user"; "followers"]%string
           None fuel p s) = None.
Proof.
  intros HW. induction fuel as [|fuel IH]; intros p s Hn Hi; cbn [paginate_loop];
    unfold loop_condition; rewrite Hn; simpl; [reflexivity|].
  assert (Hu : in_range (update_cursor variables p s))
    by (apply (evolves_update_cursor variables p s), Hi).
  destruct (endless_fetch W query_template (Some variables) c _ HW Hu)
    as (s1 & He & Hi1).
  unfold paginate_pass. rewrite He. simpl. apply IH; [reflexivity|].
  unfold in_range in *. simpl. exact Hi1.
Qed.

(** X7: with [max_pages = None] nothing in [paginate_query] bounds the
    number of pages and no repeated cursor is noticed: against an API
    that answers every request with a page announcing a next page (here
    always with the same cursor) the loop does not come to an end, for
    any number of passes allowed to it. *)
Theorem paginate_query_endless W query_template variables c s :
  (forall k, net W k = Response 200 (Some (endless_answer c))) ->
  in_range s ->
  forall fuel,
    fst (paginate_query W query_template variables ["user"; "followers"]%string
           None fuel s) = None.
Proof.
  intros HW Hi fuel. unfold paginate_query.
  apply (endless_loop W query_template variables c HW); [reflexivity | exact Hi].
Qed.

(** ** utils.rate_limit_wait *)

Lemma sleep_each_second_spec n :
  forall s,
    let run := sleep_each_second n s in
    fst run = Ok tt /\
    trace (snd run) = trace s ++ repeat (Sleep (inject_Z 1)) n /\
    api_keys (snd run) = api_keys s /\
    current_key_index (snd run) = current_key_index s /\
    posts (snd run) = posts s /\
    draws (snd run) = draws s /\
    heap (snd run) = heap s.
Proof.
  induction n as [|n IH]; intros s; cbn [sleep_each_second].
  - unfold ret. cbn [fst snd repeat]. repeat split; auto. symmetry. apply app_nil_r.
  - unfold bind.
    rewrite (sleep_ok 1 s) by (rewrite SLEEP_MAX_seconds; lia).
    destruct (IH (log_event (Sleep (inject_Z 1)) s)) as (H1 & H2 & H3 & H4 & H5 & H6 & H7).
    destruct (sleep_each_second n (log_event (Sleep (inject_Z 1)) s)) as [[[]|e] s'];
      cbn [fst snd] in *; try discriminate H1.
    cbn [log_event api_keys current_key_index posts draws heap trace repeat] in *.
    repeat split; auto. rewrite H2, <- app_assoc. reflexivity.
Qed.

(** X8: [rate_limit_wait(seconds)] sleeps one second [seconds] times (not
    at all when [seconds <= 0]), never raises, and does nothing else: no
    request, no change of key. *)
Theorem rate_limit_wait_sleeps seconds s :
  let run := rate_limit_wait seconds s in
  fst run = Ok tt /\
  trace (snd run) = trace s ++ repeat (Sleep (inject_Z 1)) (Z.to_nat seconds) /\
  api_keys (snd run) = api_keys s /\
  current_key_index (snd run) = current_key_index s /\
  posts (snd run) = posts s /\
  (seconds <= 0 -> snd run = s).
Proof.
  intros run. subst run. unfold rate_limit_wait.
  destruct (sleep_each_second_spec (Z.to_nat seconds) s)
    as (H1 & H2 & H3 & H4 & H5 & _).
  repeat split; auto.
  intros Hneg. replace (Z.to_nat seconds) with 0%nat by lia. reflexivity.
Qed.

(** ** GitHubRESTClient.get *)

Lemma costs_session_get R : costs 1 (RestApi.session_get R).
Proof.
  intros s. unfold RestApi.session_get, bind, current_key.
  destruct (nth_error (api_keys s) (current_key_index s)).
  - destruct (R (posts s)); repeat split; simpl; auto; lia.
  - eapply evolves_weaken; [|apply evolves_refl]. lia.
Qed.

Lemma costs_get_try R retry : costs 1 (RestApi.get_try R retry).
Proof.
  unfold RestApi.get_try. apply (costs_bind 1 0); [apply costs_session_get|].
  intros response. costs_tac.
Qed.

Lemma costs_sleep_again w : costs 0 (sleep w ;; ret Again).
Proof. costs_tac. Qed.

Lemma evolves_get_pass R retry s :
  evolves 1 s (snd (RestApi.get_pass R retry s)).
Proof.
  unfold RestApi.get_pass. pose proof (costs_get_try R retry s) as H.
  destruct (RestApi.get_try R retry s) as [[r|e] s']; cbn [snd] in *; [exact H|].
  change 1%nat with (1 + 0)%nat.
  destruct e; (eapply evolves_trans; [exact H | apply costs_sleep_again]).
Qed.

Lemma evolves_get_loop R n :
  forall retry s, evolves n s (snd (RestApi.get_loop R n retry s)).
Proof.
  induction n as [|n IH]; intros retry s; cbn [RestApi.get_loop];
    [apply evolves_refl|].
  pose proof (evolves_get_pass R retry s) as Hp.
  destruct (RestApi.get_pass R retry s) as [[[v|]|e] s1]; cbn [snd] in *.
  - eapply evolves_weaken; [|exact Hp]. lia.
  - change (S n) with (1 + n)%nat. eapply evolves_trans; [exact Hp | apply IH].
  - eapply evolves_weaken; [|exact Hp]. lia.
Qed.

Lemma get_try_answered R retry s key code body text :
  nth_error (api_keys s) (current_key_index s) = Some key ->
  R (posts s) = RestResponse code body text ->
  RestApi.get_try R retry s =
    (if code =? 200 then
       data <- lift (response_json body) ;; ret (Done data)
     else if code =? 401 then Rest.rotate_key ;; ret Again
     else if code =? 403 then
       if Py.contains "rate limit" (Py.lower text) then
         Rest.rotate_key ;; ret Again
       else ret (Done JNull)
     else if code =? 404 then ret (Done JNull)
     else if code >=? 500 then sleep (2 ^ retry) ;; ret Again
     else ret Again)%py (count_post s).
Proof.
  intros Hk HR.
  unfold RestApi.get_try, RestApi.session_get, current_key.
  unfold bind at 1. unfold bind at 1. rewrite Hk, HR. reflexivity.
Qed.

Lemma rest_rotate_then_again s :
  (Rest.rotate_key ;; ret Again)%py s = (Ok Again, snd (Rest.rotate_key s)).
Proof.
  unfold bind, Rest.rotate_key, ret.
  destruct (length (api_keys s) <=? 1)%nat; reflexivity.
Qed.

(** A sleep followed by the next pass: the sleep made, or an exception
    and nothing slept. *)
Lemma sleep_again_cases w s :
  (0 <= w <= SLEEP_MAX /\
   (sleep w ;; ret Again) s = (Ok Again, log_event (Sleep (inject_Z w)) s)) \/
  (exists e, (w < 0 \/ SLEEP_MAX < w) /\ (sleep w ;; ret Again) s = (Raise e, s)).
Proof.
  unfold bind.
  destruct (sleep_cases w s) as [[Hw ->]|[[Hw ->]|[Hw ->]]].
  - left. split; [exact Hw | reflexivity].
  - right. exists ValueError. split; [left; exact Hw | reflexivity].
  - right. exists OverflowError. split; [right; exact Hw | reflexivity].
Qed.

Lemma get_try_trace R retry s :
  let run := RestApi.get_try R retry s in
  sleeps_at_most (2 ^ retry) s (snd run) /\
  (forall e, fst run = Raise e -> trace (snd run) = trace s).
Proof.
  intros run. subst run. unfold sleeps_at_most.
  destruct (nth_error (api_keys s) (current_key_index s)) as [key|] eqn:Hk.
  2: { unfold RestApi.get_try, RestApi.session_get, current_key, bind.
       rewrite Hk. simpl. split; auto. }
  destruct (R (posts s)) as [code body text|e] eqn:HR.
  2: { unfold RestApi.get_try, RestApi.session_get, current_key, bind.
       rewrite Hk, HR. simpl. split; auto. }
  rewrite (get_try_answered R retry s key _ _ _ Hk HR).
  destruct (code =? 200).
  { unfold bind, lift, ret. destruct (response_json body); simpl; split; auto. }
  destruct (code =? 401).
  { unfold bind, Rest.rotate_key, ret.
    destruct (length (api_keys (count_post s)) <=? 1)%nat; simpl; split; auto. }
  destruct (code =? 403).
  { destruct (Py.contains "rate limit" (Py.lower text)).
    - unfold bind, Rest.rotate_key, ret.
      destruct (length (api_keys (count_post s)) <=? 1)%nat; simpl; split; auto.
    - simpl. split; auto. }
  destruct (code =? 404); [simpl; split; auto|].
  destruct (code >=? 500); [|simpl; split; auto].
  destruct (sleep_again_cases (2 ^ retry) (count_post s))
    as [[_ ->]|(e & _ & ->)]; simpl; split; auto.
  intros e [=].
Qed.

Lemma get_pass_trace R retry s :
  sleeps_at_most (2 ^ retry) s (snd (RestApi.get_pass R retry s)).
Proof.
  unfold RestApi.get_pass.
  destruct (get_try_trace R retry s) as [Ht Hr].
  destruct (RestApi.get_try R retry s) as [[r|e] s']; cbn [fst snd] in *;
    [exact Ht|].
  specialize (Hr e eq_refl). unfold sleeps_at_most.
  assert (H : sleeps_at_most (2 ^ retry) s' (snd ((sleep (2 ^ retry) ;; ret Again) s'))).
  { unfold sleeps_at_most.
    destruct (sleep_again_cases (2 ^ retry) s') as [[_ ->]|(e' & _ & ->)];
      simpl; auto. }
  unfold sleeps_at_most in H. rewrite Hr in H. destruct e; exact H.
Qed.

Lemma get_loop_sleeps R n :
  forall retry s,
    0 <= retry ->
    exists waits,
      trace (snd (RestApi.get_loop R n retry s))
        = trace s ++ map (fun w => Sleep (inject_Z w)) waits /\
      total waits <= 2 ^ (retry + Z.of_nat n) - 2 ^ retry.
Proof.
  induction n as [|n IH]; intros retry s Hr; cbn [RestApi.get_loop].
  - exists []. simpl. split; [symmetry; apply app_nil_r|].
    rewrite Z.add_0_r. lia.
  - assert (Hpow : 2 ^ (retry + Z.of_nat (S n)) = 2 * 2 ^ (retry + Z.of_nat n)).
    { replace (retry + Z.of_nat (S n)) with (Z.succ (retry + Z.of_nat n)) by lia.
      apply Z.pow_succ_r. lia. }
    assert (Hmono : 2 ^ retry <= 2 ^ (retry + Z.of_nat n))
      by (apply Z.pow_le_mono_r; lia).
    assert (Hpos : 0 < 2 ^ retry) by (apply Z.pow_pos_nonneg; lia).
    pose proof (get_pass_trace R retry s) as Hp.
    assert (Hstop : exists waits,
               trace (snd (RestApi.get_pass R retry s))
                 = trace s ++ map (fun w => Sleep (inject_Z w)) waits /\
               total waits <= 2 ^ (retry + Z.of_nat (S n)) - 2 ^ retry).
    { destruct Hp as [Hp|Hp].
      - exists []. simpl. rewrite Hp, app_nil_r. split; [reflexivity | lia].
      - exists [2 ^ retry]. simpl. split; [exact Hp | lia]. }
    destruct (RestApi.get_pass R retry s) as [[[v|]|e] s1]; cbn [snd] in Hp, Hstop |- *;
      try exact Hstop.
    destruct (IH (retry + 1) s1 ltac:(lia)) as (waits & Ht & Hw).
    replace (retry + 1 + Z.of_nat n) with (Z.succ (retry + Z.of_nat n)) in Hw by lia.
    rewrite Z.pow_succ_r in Hw by lia.
    replace (2 ^ (retry + 1)) with (2 * 2 ^ retry) in Hw
      by (rewrite <- Z.pow_succ_r by lia; f_equal; lia).
    destruct Hp as [Hp|Hp].
    + exists waits. rewrite Ht, Hp. split; [reflexivity | lia].
    + exists (2 ^ retry :: waits). rewrite Ht, Hp, <- app_assoc. simpl.
      split; [reflexivity | lia].
Qed.

(** X9: a call of [GitHubRESTClient.get] sends at most [max_retries]
    requests, keeps the list of keys and an index in range, sends nothing
    but sleeps to the trace, and sleeps less than [2 ** max_retries]
    seconds in all (7 at most with the default of 3). *)
Theorem rest_get_bounded R max_retries s :
  let s' := snd (RestApi.get R max_retries s) in
  api_keys s' = api_keys s /\
  (in_range s -> in_range s') /\
  (posts s <= posts s' <= posts s + Z.to_nat max_retries)%nat /\
  exists waits,
    trace s' = trace s ++ map (fun w => Sleep (inject_Z w)) waits /\
    total waits <= 2 ^ Z.of_nat (Z.to_nat max_retries) - 1.
Proof.
  intros s'. subst s'. unfold RestApi.get.
  destruct (evolves_get_loop R (Z.to_nat max_retries) 0 s) as (Hk & Hi & Hp).
  destruct (get_loop_sleeps R (Z.to_nat max_retries) 0 s ltac:(lia))
    as (waits & Ht & Hw).
  repeat split; auto; try lia.
  exists waits. split; [exact Ht|]. simpl in Hw. exact Hw.
Qed.

(** X10: what [GitHubRESTClient.get] does with the 4xx answers.  A 404,
    and a 403 whose text does not mention a rate limit, end the call with
    [None] right after that one request: no further request, no sleep and
    no change of key.  A 401, and a 403 whose text mentions a rate limit,
    rotate the key and go to the next pass without sleeping. *)
Theorem rest_get_client_errors R n retry s key code body text :
  nth_error (api_keys s) (current_key_index s) = Some key ->
  R (posts s) = RestResponse code body text ->
  (code = 404 ->
   RestApi.get_loop R (S n) retry s = (Ok JNull, count_post s)) /\
  (code = 403 -> Py.contains "rate limit" (Py.lower text) = false ->
   RestApi.get_loop R (S n) retry s = (Ok JNull, count_post s)) /\
  (code = 403 -> Py.contains "rate limit" (Py.lower text) = true ->
   RestApi.get_pass R retry s = (Ok Again, snd (Rest.rotate_key (count_post s)))) /\
  (code = 401 ->
   RestApi.get_pass R retry s = (Ok Again, snd (Rest.rotate_key (count_post s)))).
Proof.
  intros Hk HR. repeat split.
  - intros ->. cbn [RestApi.get_loop]. unfold RestApi.get_pass.
    rewrite (get_try_answered R retry s key _ _ _ Hk HR). reflexivity.
  - intros -> Ht. cbn [RestApi.get_loop]. unfold RestApi.get_pass.
    rewrite (get_try_answered R retry s key _ _ _ Hk HR), Ht. reflexivity.
  - intros -> Ht. unfold RestApi.get_pass.
    rewrite (get_try_answered R retry s key _ _ _ Hk HR), Ht.
    change (403 =? 200) with false. change (403 =? 401) with false.
    change (403 =? 403) with true. cbv iota.
    rewrite rest_rotate_then_again. reflexivity.
  - intros ->. unfold RestApi.get_pass.
    rewrite (get_try_answered R retry s key _ _ _ Hk HR).
    change (401 =? 200) with false. change (401 =? 401) with true. cbv iota.
    rewrite rest_rotate_then_again. reflexivity.
Qed.

Lemma sleep_again_not_done w s v s' :
  (sleep w ;; ret Again) s = (Ok (Done v), s') -> False.
Proof.
  destruct (sleep_again_cases w s) as [[_ ->]|(e & _ & ->)]; discriminate.
Qed.

Lemma get_pass_done R retry s v s' :
  RestApi.get_pass R retry s = (Ok (Done v), s') ->
  v <> JNull ->
  s' = count_post s /\
  exists text, R (posts s) = RestResponse 200 (Some v) text.
Proof.
  unfold RestApi.get_pass, RestApi.get_try, RestApi.session_get, current_key.
  unfold bind at 1. unfold bind at 1.
  destruct (nth_error (api_keys s) (current_key_index s)) as [key|];
    [|intros H; exfalso; exact (sleep_again_not_done _ _ _ _ H)].
  destruct (R (posts s)) as [code body text|e];
    [|destruct e; intros H; exfalso; exact (sleep_again_not_done _ _ _ _ H)].
  cbn [fst snd].
  destruct (code =? 200) eqn:H200.
  { apply Z.eqb_eq in H200. subst code.
    destruct body as [b|]; cbn;
      [|intros H; exfalso; exact (sleep_again_not_done _ _ _ _ H)].
    intros [= <- <-] _. split; [reflexivity | exists text; reflexivity]. }
  destruct (code =? 401).
  { rewrite rest_rotate_then_again. intros [=]. }
  destruct (code =? 403).
  { destruct (Py.contains "rate limit" (Py.lower text)).
    - rewrite rest_rotate_then_again. intros [=].
    - cbn. intros [= <- <-] Hv. contradiction. }
  destruct (code =? 404).
  { cbn. intros [= <- <-] Hv. contradiction. }
  destruct (code >=? 500); [|cbn; intros [=]].
  destruct (sleep_again_cases (2 ^ retry) (count_post s))
    as [[_ ->]|(e & _ & ->)]; [intros [=]|].
  destruct e; intros H; exfalso; exact (sleep_again_not_done _ _ _ _ H).
Qed.

Lemma get_loop_result R n :
  forall retry s v s',
    RestApi.get_loop R n retry s = (Ok v, s') ->
    v <> JNull ->
    exists i text,
      (posts s <= i)%nat /\ posts s' = S i /\
      R i = RestResponse 200 (Some v) text.
Proof.
  induction n as [|n IH]; intros retry s v s' Hrun Hv; cbn [RestApi.get_loop] in Hrun.
  - injection Hrun as <- <-. contradiction.
  - pose proof (evolves_get_pass R retry s) as (_ & _ & Hp).
    destruct (RestApi.get_pass R retry s) as [[[w|]|e] s1] eqn:Hpass;
      cbn [snd] in Hp; [| |discriminate Hrun].
    + injection Hrun as <- <-.
      destruct (get_pass_done R retry s w s1 Hpass Hv) as [-> [text HR]].
      exists (posts s), text. repeat split; auto.
    + destruct (IH _ _ _ _ Hrun Hv) as (i & text & Hi & Hs & HR).
      exists i, text. repeat split; auto. lia.
Qed.

(** A pass of [get] raises only the [OverflowError] of a sleep, from
    [retry = 34] on. *)
Lemma get_pass_raises R retry s e :
  0 <= retry ->
  fst (RestApi.get_pass R retry s) = Raise e ->
  e = OverflowError /\ 34 <= retry.
Proof.
  intros Hr. unfold RestApi.get_pass.
  assert (Hs : forall t, fst ((sleep (2 ^ retry) ;; ret Again) t) = Raise e ->
                         e = OverflowError /\ 34 <= retry).
  { intros t. unfold bind.
    destruct (sleep_cases (2 ^ retry) t) as [[_ ->]|[[Hw ->]|[Hw ->]]];
      cbn [fst]; try discriminate.
    - pose proof (Z.pow_nonneg 2 retry ltac:(lia)). lia.
    - intros [= <-]. split; [reflexivity|].
      destruct (Z.le_gt_cases retry 33) as [H33|H33]; [|lia].
      pose proof (power_accepted retry H33) as [_ Hle].
      unfold backoff_base in Hle. lia. }
  destruct (RestApi.get_try R retry s) as [[r|e'] s'] eqn:Ht; cbn [fst];
    [discriminate | destruct e'; apply Hs].
Qed.

Lemma get_loop_raises R n :
  forall retry s e,
    0 <= retry ->
    fst (RestApi.get_loop R n retry s) = Raise e ->
    e = OverflowError /\ 35 <= retry + Z.of_nat n.
Proof.
  induction n as [|n IH]; intros retry s e Hr; cbn [RestApi.get_loop];
    [discriminate|].
  pose proof (get_pass_raises R retry s) as Hp.
  destruct (RestApi.get_pass R retry s) as [[[v|]|e'] s1]; cbn [fst] in *.
  - discriminate.
  - intros H. destruct (IH (retry + 1) s1 e ltac:(lia) H) as [He Hn].
    split; [exact He | lia].
  - intros [= <-]. destruct (Hp e' Hr eq_refl) as [He Hn]. split; [exact He | lia].
Qed.

(** X11: where a result of [GitHubRESTClient.get] comes from.  A result
    other than [None] is the JSON body of a response with status 200, and
    that response answered the last request of the call; and a 200 whose
    body parses ends the call with that body right after the request.  The
    call raises only when a wait is too long for [time.sleep], which takes
    35 retries or more. *)
Theorem rest_get_result R max_retries s :
  (forall v s',
     RestApi.get R max_retries s = (Ok v, s') ->
     v <> JNull ->
     exists i text,
       (posts s <= i)%nat /\ posts s' = S i /\
       R i = RestResponse 200 (Some v) text) /\
  (forall key n retry body text,
     nth_error (api_keys s) (current_key_index s) = Some key ->
     R (posts s) = RestResponse 200 (Some body) text ->
     RestApi.get_loop R (S n) retry s = (Ok body, count_post s)) /\
  (forall e,
     fst (RestApi.get R max_retries s) = Raise e ->
     e = OverflowError /\ 35 <= max_retries).
Proof.
  split; [|split].
  - intros v s' Hrun Hv. exact (get_loop_result R _ _ _ _ _ Hrun Hv).
  - intros key n retry body text Hk HR. cbn [RestApi.get_loop].
    unfold RestApi.get_pass.
    rewrite (get_try_answered R retry s key _ _ _ Hk HR). reflexivity.
  - intros e He. unfold RestApi.get in He.
    destruct (get_loop_raises R _ 0 s e ltac:(lia) He) as [-> Hn].
    split; [reflexivity | lia].
Qed.

Lemma iter_count_post n :
  forall s, Nat.iter n count_post (count_post s) = count_post (Nat.iter n count_post s).
Proof. induction n as [|n IH]; intros s; simpl; [reflexivity | rewrite IH; reflexivity]. Qed.

(** X12: with a single key, a 401 cannot be helped by [rotate_key], and
    [get] does not stop on it: when every request is answered 401 the call
    sends exactly [max_retries] requests one after the other, with no
    sleep between them and the key unchanged, and returns [None]. *)
Theorem rest_get_unauthorized_single_key R max_retries s key :
  nth_error (api_keys s) (current_key_index s) = Some key ->
  (length (api_keys s) <= 1)%nat ->
  (forall k, exists body text, R k = RestResponse 401 body text) ->
  RestApi.get R max_retries s =
    (Ok JNull, Nat.iter (Z.to_nat max_retries) count_post s).
Proof.
  intros Hk Hlen HR. unfold RestApi.get.
  generalize 0 as retry. revert s Hk Hlen.
  induction (Z.to_nat max_retries) as [|n IH]; intros s Hk Hlen retry.
  - reflexivity.
  - cbn [RestApi.get_loop]. unfold RestApi.get_pass.
    destruct (HR (posts s)) as (body & text & HRs).
    rewrite (get_try_answered R retry s key _ _ _ Hk HRs).
    change (401 =? 200) with false. change (401 =? 401) with true. cbv iota.
    rewrite rest_rotate_then_again.
    assert (Hrot : snd (Rest.rotate_key (count_post s)) = count_post s).
    { unfold Rest.rotate_key. cbn [api_keys count_post].
      apply Nat.leb_le in Hlen. rewrite Hlen. reflexivity. }
    rewrite Hrot, (IH (count_post s) Hk Hlen (retry + 1)).
    simpl. rewrite iter_count_post. reflexivity.
Qed.

(** ** crawl_repos.get_contributors_count *)

(** X13: [get_contributors_count] returns 0 or a number above
    [MIN_CONTRIBUTORS]; it never raises and sends at most 3 requests.  A
    result other than 0 is the length of the JSON body of a response with
    status 200 (the number of elements of a list, of keys of a dictionary,
    of characters of a string); every failure of the request reads as 0,
    like a repository with few contributors. *)
Theorem get_contributors_count_threshold R s :
  let run := get_contributors_count R s in
  (fst run = 0 \/ MIN_CONTRIBUTORS < fst run) /\
  (posts s <= posts (snd run) <= posts s + 3)%nat /\
  (fst run <> 0 ->
   exists i text v,
     R i = RestResponse 200 (Some v) text /\
     posts (snd run) = S i /\
     py_len v = Ok (fst run)).
Proof.
  intros run. subst run. unfold get_contributors_count.
  pose proof (evolves_get_loop R 3 0 s) as (_ & _ & Hp).
  pose proof (get_loop_result R 3 0 s) as Hres.
  change (RestApi.get_loop R 3 0 s) with (RestApi.get R 3 s) in Hp, Hres.
  destruct (RestApi.get R 3 s) as [[result|e] s'] eqn:Hget; cbn [snd] in Hp;
    [|cbn [fst snd]; repeat split; auto; try lia; intros H; contradiction].
  destruct (Py.truthy result) eqn:Ht;
    [|cbn [fst snd]; repeat split; auto; try lia; intros H; contradiction].
  destruct (py_len result) as [n|e] eqn:Hl;
    [|cbn [fst snd]; repeat split; auto; try lia; intros H; contradiction].
  destruct (n >? MIN_CONTRIBUTORS) eqn:Hn;
    [|cbn [fst snd]; repeat split; auto; try lia; intros H; contradiction].
  cbn [fst snd]. split; [right; lia|]. split; [exact Hp|].
  intros _.
  assert (Hv : result <> JNull) by (intros ->; discriminate Ht).
  destruct (Hres result s' eq_refl Hv) as (i & text & _ & Hs & HRi).
  exists i, text, result. auto.
Qed.

(** ** safe_get and safe_get_nested *)

Lemma none_or_value (data : json) : data = JNull \/ data <> JNull.
Proof. destruct data; [left; reflexivity | right; discriminate ..]. Qed.

Lemma descend_app ks1 :
  forall ks2 current,
    descend (ks1 ++ ks2) current =
      match descend ks1 current with
      | Some inner => descend ks2 inner
      | None => None
      end.
Proof.
  induction ks1 as [|key ks1 IH]; intros ks2 current; simpl; [reflexivity|].
  destruct current; try reflexivity.
  destruct (Py.lookup_field key fields) as [[]|]; try reflexivity; apply IH.
Qed.

Lemma descend_not_none ks :
  forall current inner,
    current <> JNull -> descend ks current = Some inner -> inner <> JNull.
Proof.
  induction ks as [|key ks IH]; intros current inner Hc; simpl.
  - intros [= <-]. exact Hc.
  - destruct current; try discriminate.
    destruct (Py.lookup_field key fields) as [x|]; [|discriminate].
    destruct x; try discriminate; apply IH; discriminate.
Qed.

Lemma safe_get_nested_reached data ks default :
  data <> JNull ->
  safe_get_nested data ks default =
    match descend ks data with
    | Some current => current
    | None => default
    end.
Proof.
  intros Hd. unfold safe_get_nested.
  pose proof (descend_not_none ks data) as Hn.
  destruct (descend ks data) as [current|].
  - specialize (Hn current Hd eq_refl).
    destruct data; try contradiction; destruct current; try contradiction; reflexivity.
  - destruct data; reflexivity.
Qed.

(** X14: walking a path with [safe_get_nested] composes: a path
    [keys1 + keys2] gives what walking [keys2] gives from the result of
    walking [keys1] (with the default [None] in between). *)
Theorem safe_get_nested_compose data keys1 keys2 default :
  safe_get_nested data (keys1 ++ keys2) default =
  safe_get_nested (safe_get_nested data keys1 JNull) keys2 default.
Proof.
  destruct (none_or_value data) as [->|Hd]; [reflexivity|].
  rewrite (safe_get_nested_reached data (keys1 ++ keys2) default Hd).
  rewrite (safe_get_nested_reached data keys1 JNull Hd).
  rewrite descend_app.
  pose proof (descend_not_none keys1 data) as Hn.
  destruct (descend keys1 data) as [inner|]; [|reflexivity].
  specialize (Hn inner Hd eq_refl).
  rewrite (safe_get_nested_reached inner keys2 default Hn). reflexivity.
Qed.

(** X15: [safe_get_nested] returns the default or a value found in the
    data, and never [None] in place of a default that is not [None]:
    a key bound to null reads as missing. *)
Theorem safe_get_nested_never_none data keys default :
  (safe_get_nested data keys default = default \/
   descend keys data = Some (safe_get_nested data keys default)) /\
  (default <> JNull -> safe_get_nested data keys default <> JNull).
Proof.
  destruct (none_or_value data) as [->|Hd].
  - split; [left; reflexivity | auto].
  - rewrite (safe_get_nested_reached data keys default Hd).
    pose proof (descend_not_none keys data) as Hn.
    destruct (descend keys data) as [current|].
    + split; [right; reflexivity | intros _; exact (Hn current Hd eq_refl)].
    + split; [left; reflexivity | auto].
Qed.

(** X16: [safe_get_nested] with one key against [safe_get].  Where
    [safe_get] returns a value other than [None] the two agree; where
    [safe_get] returns [None] (a key bound to null, or a [None] default)
    [safe_get_nested] returns the default; and where [safe_get] raises,
    which is [AttributeError] on data that is neither [None] nor a
    dictionary, [safe_get_nested] returns the default. *)
Theorem safe_get_nested_one_key data key default :
  (forall v, safe_get data key default = Ok v -> v <> JNull ->
             safe_get_nested data [key] default = v) /\
  (safe_get data key default = Ok JNull ->
   safe_get_nested data [key] default = default) /\
  (forall e, safe_get data key default = Raise e ->
             e = AttributeError /\ (forall fields, data <> JObj fields) /\
             data <> JNull /\
             safe_get_nested data [key] default = default).
Proof.
  repeat split.
  - intros v Hg Hv. destruct data; simpl in Hg; try discriminate Hg.
    + injection Hg as ->. reflexivity.
    + unfold safe_get_nested. simpl.
      destruct (Py.lookup_field key fields) as [x|]; injection Hg as ->;
        [destruct v; try contradiction; reflexivity | reflexivity].
  - intros Hg. destruct data; simpl in Hg; try discriminate Hg.
    + reflexivity.
    + unfold safe_get_nested. simpl.
      destruct (Py.lookup_field key fields) as [x|]; injection Hg as Hx.
      * subst x. reflexivity.
      * reflexivity.
  - destruct data; simpl in H; congruence.
  - intros fields ->. discriminate H.
  - intros ->. discriminate H.
  - destruct data; simpl in H; try discriminate H; reflexivity.
Qed.

(** ** The other status codes of the executor *)

(** X17: a query answered with status 403 never ends the call.  With one
    key the pass waits [min(300, 2 ** retry_count)] seconds, slept one
    second at a time, and with more keys it rotates and pauses one
    second; either way the loop goes on with the retry count plus one. *)
Theorem forbidden_status W query variables rc s s1 key body :
  rate_limit_gate W rc s = (Ok None, s1) ->
  nth_error (api_keys s1) (current_key_index s1) = Some key ->
  net W (posts s1) = Response 403 body ->
  let s2 := sent (query_request query variables key s1) s1 in
  ((length (api_keys s1) <= 1)%nat ->
   let s3 := snd (rate_limit_wait (quota_wait rc) s2) in
   execute_attempt W query variables rc s = (Continue (rc + 1), s3) /\
   trace s3 = trace s2 ++ repeat (Sleep (inject_Z 1)) (Z.to_nat (quota_wait rc)) /\
   posts s3 = posts s2 /\
   current_key_index s3 = current_key_index s1 /\
   quota_wait rc <= 300) /\
  ((2 <= length (api_keys s1))%nat ->
   execute_attempt W query variables rc s =
     (Continue (rc + 1),
      log_event (Sleep (inject_Z 1))
        (set_index ((current_key_index s1 + 1) mod length (api_keys s1))%nat s2))).
Proof.
  intros Hg Hk Hn s2.
  assert (Ht : try_body W query variables rc s
               = handle_response W rc (403, body) s2).
  { unfold try_body. rewrite (bind_ok _ _ _ _ _ Hg).
    unfold send_request, post, current_key, bind. rewrite Hk, Hn. reflexivity. }
  split; intros Hlen.
  - intros s3.
    destruct (sleep_each_second_spec (Z.to_nat (quota_wait rc)) s2)
      as (Hok & Htr & _ & Hi & Hp & _).
    fold (rate_limit_wait (quota_wait rc)) in Hok, Htr, Hi, Hp.
    fold s3 in Htr, Hi, Hp.
    repeat split; auto; [|unfold quota_wait; lia].
    unfold execute_attempt. rewrite Ht.
    unfold handle_response, bind, rotate_key, ret. simpl.
    rewrite (proj2 (Nat.leb_le _ _) Hlen). simpl.
    subst s3.
    destruct (rate_limit_wait (quota_wait rc) s2) as [[[]|e] s'];
      simpl in Hok; [reflexivity | discriminate Hok].
  - unfold execute_attempt. rewrite Ht.
    unfold handle_response, bind, rotate_key, ret. simpl.
    rewrite (proj2 (Nat.leb_gt _ _) Hlen). reflexivity.
Qed.

(** X18: a query answered with a status below 500 other than 200, 401
    and 403 (a 400, a 404, a 422) makes the pass sleep
    [2 ** (retry_count + 1)] seconds, with no cap, and go on with the
    retry count plus one; on the last retry the call sleeps that long
    and then returns [None].  This holds up to the retry count 32.  From
    the retry count 33 on the wait is too long for [time.sleep]: its
    [OverflowError] goes to the handler of line 199, whose own sleep
    raises it again, and the exception leaves [execute_query] with
    nothing slept. *)
Theorem unhandled_status_backoff
    W query variables max_retries fuel rc s s1 key code body :
  rate_limit_gate W rc s = (Ok None, s1) ->
  nth_error (api_keys s1) (current_key_index s1) = Some key ->
  net W (posts s1) = Response code body ->
  code <> 200 -> code <> 401 -> code <> 403 -> code < 500 ->
  let s2 := sent (query_request query variables key s1) s1 in
  (0 <= rc <= 32 ->
   let s3 := log_event (Sleep (inject_Z (2 ^ (rc + 1)))) s2 in
   execute_attempt W query variables rc s = (Continue (rc + 1), s3) /\
   (rc + 1 = max_retries ->
    execute_loop W query variables max_retries (S fuel) rc s = (Some (Ok JNull), s3))) /\
  (33 <= rc ->
   execute_attempt W query variables rc s = (Escape OverflowError, s2) /\
   (rc < max_retries ->
    execute_loop W query variables max_retries (S fuel) rc s
      = (Some (Raise OverflowError), s2))).
Proof.
  intros Hg Hk Hn H200 H401 H403 H500 s2.
  assert (Ht : execute_attempt W query variables rc s =
               match sleep_incremented rc s2 with
               | (Ok r, s') => (r, s')
               | (Raise Timeout, s') =>
                   (Continue (rc + 1),
                    log_event (Sleep (inject_Z (network_wait rc))) s')
               | (Raise ConnectionError, s') =>
                   (Continue (rc + 1),
                    log_event (Sleep (inject_Z (network_wait rc))) s')
               | (Raise _, s') => on_exception rc s'
               end).
  { unfold execute_attempt, try_body. rewrite (bind_ok _ _ _ _ _ Hg).
    unfold send_request, post, current_key. unfold bind at 1. unfold bind at 1.
    rewrite Hk, Hn. unfold handle_response. cbn [fst snd].
    rewrite (proj2 (Z.eqb_neq _ _) H200), (proj2 (Z.eqb_neq _ _) H401),
      (proj2 (Z.eqb_neq _ _) H403).
    replace (code >=? 500) with false by (symmetry; rewrite Z.geb_leb; apply Z.leb_gt; lia).
    reflexivity. }
  split.
  - intros Hrc s3.
    assert (Ha : execute_attempt W query variables rc s = (Continue (rc + 1), s3)).
    { rewrite Ht, (sleep_incremented_sleeps rc s2 (proj2 Hrc)). reflexivity. }
    split; [exact Ha|]. intros Hlast.
    cbn [execute_loop]. replace (rc <? max_retries) with true
      by (symmetry; apply Z.ltb_lt; lia).
    rewrite Ha.
    destruct fuel; cbn [execute_loop];
      replace (rc + 1 <? max_retries) with false
        by (symmetry; apply Z.ltb_ge; lia); reflexivity.
  - intros Hrc.
    assert (Ha : execute_attempt W query variables rc s = (Escape OverflowError, s2)).
    { rewrite Ht, (sleep_incremented_escapes rc s2 Hrc). reflexivity. }
    split; [exact Ha|]. intros Hlt.
    cbn [execute_loop]. rewrite (proj2 (Z.ltb_lt _ _) Hlt), Ha. reflexivity.
Qed.

(** * The further properties on sample runs *)

Lemma unauthorized_key_witness :
  execute_query (refusing 401) "q" None 5 single_key =
    (Some (Ok JNull),
     sent (query_request "q" None "A" single_key)
       (sent (snapshot_request "A") single_key)).
Proof.
  refine (proj2 (proj1
    (unauthorized_key (refusing 401) "q" None 5 4 0 single_key
       (sent (snapshot_request "A") single_key) "A" None _ _ _ _) _));
    vm_compute; solve [reflexivity | lia].
Defined.

Lemma low_quota_single_key_witness :
  execute_query down "q" None 1 single_key =
    (Some (Ok JNull),
     log_event (Sleep (inject_Z 1)) (sent (snapshot_request "A") single_key)).
Proof.
  refine (proj1 (proj2
    (low_quota_single_key down "q" None single_key
       (JObj [("remaining"%string, JInt 0)])
       (sent (snapshot_request "A") single_key) (JInt 0) _ _ _ _)));
    vm_compute; solve [reflexivity | lia].
Defined.

Lemma paginate_query_endless_witness :
  fst (paginate_query endless "q" 7 ["user"; "followers"]%string None 1000 two_keys)
  = None.
Proof.
  refine (paginate_query_endless endless "q" 7 (JStr "X") two_keys _ _ 1000).
  - intros k. reflexivity.
  - unfold in_range. simpl. lia.
Defined.

Lemma rest_get_client_errors_witness :
  RestApi.get (rest_refusing 404 "Not Found") 3 two_keys
  = (Ok JNull, count_post two_keys).
Proof.
  refine (proj1
    (rest_get_client_errors (rest_refusing 404 "Not Found") 2 0 two_keys "A" 404 None
       "Not Found" _ _) _); reflexivity.
Defined.

Lemma rest_get_unauthorized_single_key_witness :
  RestApi.get (rest_refusing 401 "Bad credentials") 3 single_key =
    (Ok JNull, count_post (count_post (count_post single_key))).
Proof.
  refine (rest_get_unauthorized_single_key (rest_refusing 401 "Bad credentials") 3
            single_key "A" _ _ _).
  - reflexivity.
  - simpl. lia.
  - intros k. exists None, "Bad credentials"%string. reflexivity.
Defined.

Lemma forbidden_status_witness :
  let s := sent (snapshot_request "A") single_key in
  execute_attempt (refusing 403) "q" None 3 s =
    (Continue 4, snd (rate_limit_wait 8 (sent (query_request "q" None "A" s) s))).
Proof.
  intros s.
  refine (proj1 (proj1
    (forbidden_status (refusing 403) "q" None 3 s s "A" None _ _ _) _));
    vm_compute; solve [reflexivity | lia].
Defined.

Lemma unhandled_status_backoff_witness :
  execute_loop down "q" None 5 1 4 two_keys =
    (Some (Ok JNull),
     log_event (Sleep (inject_Z 32))
       (sent (query_request "q" None "A" two_keys) two_keys)) /\
  execute_loop down "q" None 40 1 33 two_keys =
    (Some (Raise OverflowError),
     sent (query_request "q" None "A" two_keys) two_keys).
Proof.
  split.
  - refine (proj2 (proj1
      (unhandled_status_backoff down "q" None 5 0 4 two_keys two_keys "A" 404 None
         _ _ _ _ _ _ _) _) _);
      first [lia | vm_compute; reflexivity].
  - refine (proj2 (proj2
      (unhandled_status_backoff down "q" None 40 0 33 two_keys two_keys "A" 404 None
         _ _ _ _ _ _ _) _) _);
      first [lia | vm_compute; reflexivity].
Defined.
